(** * cesium-learn: the repository's own logic, embedded and verified

    The repository is a thin layer over the Cesium rendering engine.  Its own
    logic is: the option-merging utility [merge] (utils/object.ts), the pinia
    store with the graphic registry (stores/modules/mapStore.ts), the point,
    geometry and grid helpers that guard every engine call with a null check
    and a registry lookup, and the [VoxelGrid] class.

    Part I embeds the code, one module per source file.  Part II states and
    proves its properties.

    The rendering engine is a parameter (classes [Engine] and [Objects]):
    numbers, coordinate conversion, matrices and the objects the engine builds
    are opaque, and an engine call outside a [try] block is taken to return.
    What the model keeps concrete is what the repository itself decides: the
    guards, the registry, which objects are members of the viewer's
    collections, the console, and the values returned. *)

From Stdlib Require Import Ascii.
From stdpp Require Import gmap strings list pretty.

#[local] Set Warnings "-register-all".

Open Scope Z_scope.

(** ** utils/object.ts : [merge] *)
Module ObjectUtils.

(** JavaScript data as [merge] sees it.  An array is an object whose
    [isArray] flag is set and whose elements are the properties named by
    array indices ("0", "1", ...), listed in index order; a plain object lists
    its own properties in insertion order.  Values are trees: target and source
    share no structure, as for configurations parsed from JSON.  Inherited
    properties (the prototype chain) are not modelled.  [merge] never computes
    with a number or a string: they are atoms here. *)
Inductive value : Type :=
| VUndefined
| VNull
| VBool (b : bool)
| VNum (n : Z)
| VStr (s : string)
| VObj (isArray : bool) (props : list (string * value)).

(** [source === null || typeof source !== 'object'] is the negation of this. *)
Definition isObject (v : value) : bool :=
  match v with VObj _ _ => true | _ => false end.

(** [Array.isArray(v)] *)
Definition isArray (v : value) : bool :=
  match v with VObj a _ => a | _ => false end.

(** [v && typeof v === 'object' && !Array.isArray(v)] *)
Definition isPlainObject (v : value) : bool :=
  match v with VObj a _ => negb a | _ => false end.

(** [v === undefined] *)
Definition isUndefined (v : value) : bool :=
  match v with VUndefined => true | _ => false end.

Fixpoint lookupProp (key : string) (props : list (string * value)) : option value :=
  match props with
  | [] => None
  | (k, v) :: rest => if decide (k = key) then Some v else lookupProp key rest
  end.

(** [props[key] = v]: an existing property keeps its place, a new one is
    added last. *)
Fixpoint assignProp (key : string) (v : value) (props : list (string * value))
  : list (string * value) :=
  match props with
  | [] => [(key, v)]
  | (k, w) :: rest =>
      if decide (k = key) then (k, v) :: rest else (k, w) :: assignProp key v rest
  end.

(** [o[key]]: a missing property reads as [undefined]. *)
Definition get (o : value) (key : string) : value :=
  match o with
  | VObj _ props => default VUndefined (lookupProp key props)
  | _ => VUndefined
  end.

(** [o[key] = v] on an object or an array. *)
Definition set (o : value) (key : string) (v : value) : value :=
  match o with
  | VObj a props => VObj a (assignProp key v props)
  | _ => o
  end.



Definition isDigit (c : ascii) : bool :=
  let n := nat_of_ascii c in (48 <=? n)%nat && (n <=? 57)%nat.

Definition digitsValue (s : string) : N :=
  foldl (λ acc c, 10 * acc + N_of_ascii c - 48)%N 0%N (String.list_ascii_of_string s).

(** A property name is an array index when it is the canonical decimal
    numeral of an integer below 2^32 - 1. *)
Definition isIndex (s : string) : bool :=
  match s with
  | EmptyString => false
  | String c rest =>
      forallb isDigit (c :: String.list_ascii_of_string rest)
      && (negb (Ascii.eqb c "0") || bool_decide (rest = EmptyString))
      && (digitsValue s <? 4294967295)%N
  end.

(** The array literal [[v0, v1, ...]]. *)
Definition arrayOf (items : list value) : value :=
  VObj true (imap (λ i v, (pretty i, v)) items).

(** The object literal [{k0: v0, ...}]. *)
Definition objectOf (props : list (string * value)) : value :=
  VObj false props.

(** The callback of [sourceArr.forEach((item, index) => ...)], lines 60-66;
    [self] is the recursive call [merge(_, _, {deep, overwrite})].  [forEach]
    visits the index properties only. *)
Definition mergeItem (self : value → value → value)
    (targetArr : value) (entry : string * value) : value :=
  let '(index, item) := entry in
  if isIndex index then
    if isUndefined (get targetArr index)
    then set targetArr index item
    else set targetArr index (self (get targetArr index) item)
  else targetArr.

(** The callback of [Object.keys(sourceObj).forEach((key) => ...)], lines
    75-91.  When the target value is an object the recursive call merges into
    it in place; otherwise line 82 stores a fresh [{}] under the key while
    line 84 still passes the old, non-object [targetValue], so the recursive
    call fills an object of its own and its result is dropped. *)
Definition mergeProperty (self : value → value → value) (deep overwrite : bool)
    (targetObj : value) (entry : string * value) : value :=
  let '(key, sourceValue) := entry in
  let targetValue := get targetObj key in
  if deep && isPlainObject sourceValue then
    if isObject targetValue
    then set targetObj key (self targetValue sourceValue)
    else set targetObj key (VObj false [])
  else
    if overwrite || isUndefined targetValue
    then set targetObj key sourceValue
    else targetObj.

(** What [mergeProperty] leaves under its key, as a function of the target's
    value [targetValue] and the source's value [sourceValue] under that key
    (lines 80-90 read for one key). *)
Definition mergedValue (self : value → value → value) (deep overwrite : bool)
    (targetValue sourceValue : value) : value :=
  if deep && isPlainObject sourceValue then
    if isObject targetValue then self targetValue sourceValue else VObj false []
  else if overwrite || isUndefined targetValue then sourceValue else targetValue.

(** [merge(target, source, { deep, overwrite })], lines 39-93, with both
    flags resolved. *)
Fixpoint mergeWith (deep overwrite : bool) (target source : value) {struct source}
  : value :=
  match source with
  | VObj sourceIsArray sourceProps =>
      let target :=
        if isObject target then target else VObj sourceIsArray [] in
      if sourceIsArray then
        if negb deep then (if overwrite then source else target)
        else foldl (mergeItem (mergeWith deep overwrite)) target sourceProps
      else
        foldl (mergeProperty (mergeWith deep overwrite) deep overwrite)
          target sourceProps
  | _ => target
  end.

(** [MergeOptions]: an absent flag is [None]. *)
Record MergeOptions := { deep : option bool; overwrite : option bool }.

(** The default value of the [options] parameter. *)
Definition defaultOptions : MergeOptions :=
  {| deep := Some true; overwrite := Some true |}.

(** [const { deep = true, overwrite = true } = options] and the body. *)
Definition merge (target source : value) (options : MergeOptions) : value :=
  mergeWith (default true (deep options)) (default true (overwrite options))
    target source.

End ObjectUtils.

(** ** The engine as the repository uses it *)
Module Cesium.

(** The identity of a JavaScript object: its allocation number. *)
Definition handle := nat.

(** A value of type [any] as the registry holds it and the helpers return
    it: [undefined], [null] or an object. *)
Inductive any : Type :=
| undefined
| null
| ref (h : handle).

#[export] Instance any_eq_dec : EqDecision any.
Proof. solve_decision. Defined.

(** [if (v)] *)
Definition truthy (v : any) : bool :=
  match v with
  | ref _ => true
  | undefined | null => false
  end.

(** Numbers and the engine's value types with the functions [VoxelGrid] and
    the grid loops call on them. *)
Class Engine := {
  number : Type;
  Cartesian3 : Type;
  Matrix4 : Type;
  Geometry : Type;
  Color : Type;
  ColorAttribute : Type;
  (** the literal [m]e[e], and a loop counter as a number *)
  decimal : Z → Z → number;
  numAdd : number → number → number;
  numMul : number → number → number;
  numLe : number → number → bool;
  (** [Cesium.Cartesian3.fromDegrees(lon, lat, height)] *)
  fromDegrees : number → number → number → Cartesian3;
  (** [new Cesium.Cartesian3(x, y, z)] *)
  newCartesian3 : number → number → number → Cartesian3;
  (** [Cesium.Transforms.eastNorthUpToFixedFrame(origin)] *)
  eastNorthUpToFixedFrame : Cartesian3 → Matrix4;
  (** [Cesium.Matrix4.multiplyByTranslation(m, t, new Cesium.Matrix4())] *)
  multiplyByTranslation : Matrix4 → Cartesian3 → Matrix4;
  (** [Cesium.BoxOutlineGeometry.fromDimensions({ dimensions })] *)
  boxOutlineFromDimensions : Cartesian3 → Geometry;
  (** [Cesium.ColorGeometryInstanceAttribute.fromColor(color)] *)
  colorAttributeFromColor : option Color → ColorAttribute;
  (** [Cesium.Color.CYAN.withAlpha(a)] *)
  cyanWithAlpha : number → Color;
}.

Section Requests.
Context `{Engine}.

Definition numOfZ (z : Z) : number := decimal z 0.

(** The option objects of the helpers. *)
Record PointOptions := {
  pt_id : string; pt_lng : number; pt_lat : number; pt_name : option string }.

Record BatchOptions := {
  bt_lng : number; bt_lat : number; bt_name : option string }.

Record GlbOptions := {
  glb_id : string; glb_url : string; glb_lng : number; glb_lat : number;
  glb_height : option number; glb_heading : option number }.

Record DroneOptions := {
  dr_id : string; dr_lng : number; dr_lat : number;
  dr_height : option number; dr_heading : option number }.

Record ConeOptions := {
  cone_id : string; cone_positions : list number; cone_heading : number;
  cone_pitch : number; cone_length : number; cone_bottomRadius : number;
  cone_thickness : number; cone_color : string }.

Record PyramidOptions := {
  pyr_id : string; pyr_positions : list number; pyr_heading : number;
  pyr_pitch : number; pyr_height : number; pyr_horizontalAngle : number;
  pyr_verticalAngle : number; pyr_color : string }.

(** [{ id, length?, positions? }] and [{ id, height?, positions? }] *)
Record SizeUpdate := {
  su_id : string; su_size : option number;
  su_positions : option (number * number * number) }.

(** [{ id, heading?, pitch? }] *)
Record PoseUpdate := {
  pu_id : string; pu_heading : option number; pu_pitch : option number }.

Record GridOptions := {
  west : number; south : number; east : number; north : number;
  step : number; height : number }.

Record VoxelGridOptions := {
  lon : number; lat : number; baseHeight : number; voxelSize : number;
  countX : Z; countY : Z; countZ : Z; color : option Color }.

(** [new Cesium.GeometryInstance({ geometry, modelMatrix, attributes })] *)
Record GeometryInstance := {
  geometry : Geometry; modelMatrix : Matrix4; attributes : ColorAttribute }.

(** The places where the repository has an object built, each with what it
    passes. *)
Inductive request : Type :=
| PointEntity (o : PointOptions)
| PointDiv (o : PointOptions)
| PostRenderListener (div : handle)
| PointResult (o : PointOptions) (div listener : handle)
| BillboardCollection
| LabelCollection
| Billboard (o : BatchOptions) (i : nat)
| Label (o : BatchOptions) (i : nat)
| BillboardLabel (billboard label : handle)
| BatchResult (billboards labels : handle)
| ModelEntity (o : GlbOptions)
| DroneEntity (o : DroneOptions)
| DroneModel (o : DroneOptions) (entity : handle)
| ConeWave (o : ConeOptions)
| PyramidWave (o : PyramidOptions)
| LatitudeLine (o : GridOptions) (lat : number)
| LongitudeLine (o : GridOptions) (lon : number)
| VoxelPrimitive (instances : list GeometryInstance).

End Requests.

(** The objects the engine builds and how it updates a wave primitive.  An
    update is the body of a [try] block up to its first write: [None] when it
    throws. *)
Class Objects `{Engine} := {
  object : Type;
  build : request → object;
  (** geometry.ts, [updateConeLengthOrPosition], steps 1-4: the new primitive *)
  resizeCone : object → option number → option (number * number * number) → option object;
  (** [updateConePose]: the primitive with its new matrix and cached angles *)
  poseCone : object → option number → option number → option object;
  (** [updateRectangularPyramidLengthOrPosition], steps 1-6 *)
  resizePyramid : object → option number → option (number * number * number) → option object;
  (** [updateRectangularPyramidWavePose] *)
  posePyramid : object → option number → option number → option object;
}.

(** [console.error], [console.warn], [console.log] *)
Inductive level := LogError | LogWarn | LogInfo.

(** The messages, by what they say. *)
Inductive message :=
| MapMissing                      (* the map instance does not exist *)
| PointExists (id : string)       (* a point with this id exists already *)
| EffectExists (id : string)      (* an effect with this id exists already *)
| SizeOrPositionRequired          (* neither size nor position was given *)
| WaveMissing (id : string)       (* no cone / pyramid with this id *)
| WaveUpdated (id : string)       (* size, position or pose updated *)
| WaveUpdateFailed.               (* the update threw *)

(** An entity's id in its collection: the one the caller gave, or the GUID the
    engine makes up for a new entity. *)
Inductive EntityId := guid (h : handle) | named (s : string).

#[export] Instance EntityId_eq_dec : EqDecision EntityId.
Proof. solve_decision. Defined.

Record Entity := { entityId : EntityId; entityRef : handle }.

Section Runtime.
Context `{Objects}.

(** The state outside the store: the application's one [Cesium.Viewer] with
    its collections, the objects by identity, and the console. *)
Record Runtime := {
  entities : list Entity;          (* viewer.entities *)
  primitives : list handle;        (* viewer.scene.primitives *)
  containerChildren : list handle; (* elements appended to viewer.container *)
  postRender : list handle;        (* listeners of viewer.scene.postRender *)
  cameraDestination : option Cartesian3; (* the last viewer.camera.flyTo *)
  heap : gmap handle object;
  nextHandle : handle;
  console : list (level * message) }.

Definition withEntities (es : list Entity) (r : Runtime) : Runtime :=
  {| entities := es; primitives := primitives r;
     containerChildren := containerChildren r; postRender := postRender r;
     cameraDestination := cameraDestination r; heap := heap r;
     nextHandle := nextHandle r; console := console r |}.

Definition withPrimitives (ps : list handle) (r : Runtime) : Runtime :=
  {| entities := entities r; primitives := ps;
     containerChildren := containerChildren r; postRender := postRender r;
     cameraDestination := cameraDestination r; heap := heap r;
     nextHandle := nextHandle r; console := console r |}.

(** [console.error(m)] and its siblings. *)
Definition logTo (l : level) (m : message) (r : Runtime) : Runtime :=
  {| entities := entities r; primitives := primitives r;
     containerChildren := containerChildren r; postRender := postRender r;
     cameraDestination := cameraDestination r; heap := heap r;
     nextHandle := nextHandle r; console := console r ++ [(l, m)] |}.

(** [new ...]: the object gets the next handle. *)
Definition allocate (o : object) (r : Runtime) : handle * Runtime :=
  (nextHandle r,
   {| entities := entities r; primitives := primitives r;
      containerChildren := containerChildren r; postRender := postRender r;
      cameraDestination := cameraDestination r;
      heap := <[nextHandle r := o]> (heap r);
      nextHandle := S (nextHandle r); console := console r |}).

(** An in-place update of the object behind [h]. *)
Definition mutate (h : handle) (o : object) (r : Runtime) : Runtime :=
  {| entities := entities r; primitives := primitives r;
     containerChildren := containerChildren r; postRender := postRender r;
     cameraDestination := cameraDestination r; heap := <[h := o]> (heap r);
     nextHandle := nextHandle r; console := console r |}.

(** [viewer.entities.add(options)] for options without an id: the engine gives
    the new entity a GUID. *)
Definition addEntity (req : request) (r : Runtime) : handle * Runtime :=
  let '(h, r) := allocate (build req) r in
  (h, withEntities (entities r ++ [{| entityId := guid h; entityRef := h |}]) r).

(** [viewer.entities.add({ id, ... })]: the collection is keyed by id and
    refuses a second entity with an id it holds ([None]: it throws). *)
Definition addNamedEntity (id : string) (req : request) (r : Runtime)
  : option (handle * Runtime) :=
  if bool_decide (named id ∈ entityId <$> entities r) then None
  else
    let '(h, r) := allocate (build req) r in
    Some (h, withEntities (entities r ++ [{| entityId := named id; entityRef := h |}]) r).

(** [viewer.entities.remove(entity)] removes by the entity's id. *)
Definition removeEntity (id : EntityId) (r : Runtime) : Runtime :=
  withEntities (filter (λ e, entityId e ≠ id) (entities r)) r.

(** [viewer.scene.primitives.add(p)] *)
Definition addPrimitive (p : handle) (r : Runtime) : Runtime :=
  withPrimitives (primitives r ++ [p]) r.

Fixpoint removeFirst (p : handle) (ps : list handle) : list handle :=
  match ps with
  | [] => []
  | q :: ps => if decide (q = p) then ps else q :: removeFirst p ps
  end.

(** [viewer.scene.primitives.remove(p)]: the collection drops [p] where it
    finds it. *)
Definition removePrimitive (p : handle) (r : Runtime) : Runtime :=
  withPrimitives (removeFirst p (primitives r)) r.

(** [viewer.container.appendChild(div)] *)
Definition appendChild (div : handle) (r : Runtime) : Runtime :=
  {| entities := entities r; primitives := primitives r;
     containerChildren := containerChildren r ++ [div];
     postRender := postRender r;
     cameraDestination := cameraDestination r; heap := heap r;
     nextHandle := nextHandle r; console := console r |}.

(** [viewer.scene.postRender.addEventListener(f)] *)
Definition addPostRender (listener : handle) (r : Runtime) : Runtime :=
  {| entities := entities r; primitives := primitives r;
     containerChildren := containerChildren r;
     postRender := postRender r ++ [listener];
     cameraDestination := cameraDestination r; heap := heap r;
     nextHandle := nextHandle r; console := console r |}.

(** [viewer.camera.flyTo({ destination })] *)
Definition flyTo (destination : Cartesian3) (r : Runtime) : Runtime :=
  {| entities := entities r; primitives := primitives r;
     containerChildren := containerChildren r; postRender := postRender r;
     cameraDestination := Some destination; heap := heap r;
     nextHandle := nextHandle r; console := console r |}.

(** Every object a collection holds was allocated: its handle is below the
    next one to be given out; so is the handle behind an entity's GUID. *)
Definition allocatedEntities (r : Runtime) : Prop :=
  ∀ e, e ∈ entities r →
    (entityRef e < nextHandle r)%nat
    ∧ ∀ h, entityId e = guid h → (h < nextHandle r)%nat.

Definition allocatedPrimitives (r : Runtime) : Prop :=
  ∀ p, p ∈ primitives r → (p < nextHandle r)%nat.

Definition allocated (r : Runtime) : Prop :=
  allocatedEntities r ∧ allocatedPrimitives r.

(** Every element appended to the viewer's container was allocated. *)
Definition allocatedChildren (r : Runtime) : Prop :=
  ∀ c, c ∈ containerChildren r → (c < nextHandle r)%nat.

End Runtime.

End Cesium.

(** ** stores/modules/mapStore.ts *)
Module MapStore.
Import Cesium.

Inductive MapLoadStatus := UNLOADED | LOADING | LOADED | FAILED.



(** The one map instance the application hands to the store: the viewer that
    [Cesium.Runtime] describes. *)
Inductive MapInstance := viewer.

(** [s.endsWith(suffix)] *)
Definition endsWith (s suffix : string) : bool :=
  String.prefix (String.rev suffix) (String.rev s).

Section Store.
Context `{Engine}.

(** The state of [useMapStore]. *)
Record Store := {
  map : option MapInstance;        (* shallowRef<any>(null) *)
  isMapLoaded : MapLoadStatus;
  graphicLayer : any;
  droneTrails : gmap string any;
  isLayerInitialized : bool;
  graphicMap : gmap string any;
  trailTime : number }.

Definition initialStore : Store :=
  {| map := None; isMapLoaded := UNLOADED; graphicLayer := null;
     droneTrails := ∅; isLayerInitialized := false; graphicMap := ∅;
     trailTime := decimal 30 0 |}.


Definition setMapLoadSta (status : MapLoadStatus) (s : Store) : Store :=
  {| map := map s; isMapLoaded := status; graphicLayer := graphicLayer s;
     droneTrails := droneTrails s; isLayerInitialized := isLayerInitialized s;
     graphicMap := graphicMap s; trailTime := trailTime s |}.

Definition resetMapLoadSta (s : Store) : Store := setMapLoadSta UNLOADED s.

Definition setMap (mapInstance : option MapInstance) (s : Store) : Store :=
  {| map := mapInstance; isMapLoaded := isMapLoaded s;
     graphicLayer := graphicLayer s; droneTrails := droneTrails s;
     isLayerInitialized := isLayerInitialized s; graphicMap := graphicMap s;
     trailTime := trailTime s |}.

Definition getMap (s : Store) : option MapInstance := map s.

Definition setTrailTime (time : number) (s : Store) : Store :=
  {| map := map s; isMapLoaded := isMapLoaded s; graphicLayer := graphicLayer s;
     droneTrails := droneTrails s; isLayerInitialized := isLayerInitialized s;
     graphicMap := graphicMap s; trailTime := time |}.


(** Its body is commented out: it returns [undefined]. *)
Definition getOrCreateGraphicLayer (s : Store) : any := undefined.

Definition withGraphicMap (m : gmap string any) (s : Store) : Store :=
  {| map := map s; isMapLoaded := isMapLoaded s; graphicLayer := graphicLayer s;
     droneTrails := droneTrails s; isLayerInitialized := isLayerInitialized s;
     graphicMap := m; trailTime := trailTime s |}.

Definition withDroneTrails (m : gmap string any) (s : Store) : Store :=
  {| map := map s; isMapLoaded := isMapLoaded s; graphicLayer := graphicLayer s;
     droneTrails := m; isLayerInitialized := isLayerInitialized s;
     graphicMap := graphicMap s; trailTime := trailTime s |}.

(** [graphicMap.set(id, graphic)] *)
Definition setGraphicMap (id : string) (graphic : any) (s : Store) : Store :=
  withGraphicMap (<[id := graphic]> (graphicMap s)) s.

(** [graphicMap.get(id)]: [undefined] for an id the map does not hold. *)
Definition getGraphicMap (s : Store) (id : string) : any :=
  default undefined (graphicMap s !! id).

(** [graphicMap.has(id)] *)
Definition hasGraphicMap (s : Store) (id : string) : bool :=
  bool_decide (is_Some (graphicMap s !! id)).

(** [graphicMap.delete(id)] *)
Definition removeGraphicMap (id : string) (s : Store) : Store :=
  withGraphicMap (delete id (graphicMap s)) s.

Definition trailKey (droneId : string) : string := droneId +:+ "_trail".

Definition setDroneTrail (droneId : string) (trailData : any) (s : Store) : Store :=
  withDroneTrails (<[trailKey droneId := trailData]> (droneTrails s)) s.

Definition getDroneTrail (s : Store) (droneId : string) : any :=
  default undefined (droneTrails s !! trailKey droneId).

Definition hasDroneTrail (s : Store) (droneId : string) : bool :=
  bool_decide (is_Some (droneTrails s !! trailKey droneId)).

Definition clearDroneTrail (droneId : string) (s : Store) : Store :=
  withDroneTrails (delete (trailKey droneId) (droneTrails s)) s.

(** [droneTrails.forEach((_, key) => { if (key.endsWith('_trail')) droneTrails.delete(key) })] *)
Definition clearAllDroneTrails (s : Store) : Store :=
  withDroneTrails
    (filter (λ kv, endsWith kv.1 "_trail" = false) (droneTrails s)) s.

(** [if (graphicLayer.value) graphicLayer.value.clear()]: the call is on the
    layer object; the store's own state stays as it is. *)
Definition clearLayer (s : Store) : Store := s.

(** The layer is taken off the map (an engine call), then the two refs are
    reset. *)
Definition resetLayer (s : Store) : Store :=
  {| map := map s; isMapLoaded := isMapLoaded s; graphicLayer := null;
     droneTrails := droneTrails s; isLayerInitialized := false;
     graphicMap := graphicMap s; trailTime := trailTime s |}.

(** A call of one of the functions the store returns. *)
Inductive Call :=
| SetMapLoadSta (status : MapLoadStatus)
| ResetMapLoadSta
| SetMap (mapInstance : option MapInstance)
| GetMap
| SetTrailTime (time : number)
| GetTrailTime
| GetOrCreateGraphicLayer
| SetGraphicMap (id : string) (graphic : any)
| GetGraphicMap (id : string)
| HasGraphicMap (id : string)
| RemoveGraphicMap (id : string)
| SetDroneTrail (droneId : string) (trailData : any)
| GetDroneTrail (droneId : string)
| HasDroneTrail (droneId : string)
| ClearDroneTrail (droneId : string)
| ClearAllDroneTrails
| ClearLayer
| ResetLayer.

(** The store after the call. *)
Definition exec (c : Call) (s : Store) : Store :=
  match c with
  | SetMapLoadSta status => setMapLoadSta status s
  | ResetMapLoadSta => resetMapLoadSta s
  | SetMap m => setMap m s
  | SetTrailTime t => setTrailTime t s
  | SetGraphicMap id g => setGraphicMap id g s
  | RemoveGraphicMap id => removeGraphicMap id s
  | SetDroneTrail id d => setDroneTrail id d s
  | ClearDroneTrail id => clearDroneTrail id s
  | ClearAllDroneTrails => clearAllDroneTrails s
  | ClearLayer => clearLayer s
  | ResetLayer => resetLayer s
  | GetMap | GetTrailTime | GetOrCreateGraphicLayer | GetGraphicMap _
  | HasGraphicMap _ | GetDroneTrail _ | HasDroneTrail _ => s
  end.

(** The store after a sequence of calls, first call first. *)
Definition run (calls : list Call) (s : Store) : Store :=
  foldl (λ s c, exec c s) s calls.

(** The call deletes the registry entry of [id]. *)
Definition removes (id : string) (c : Call) : bool :=
  match c with
  | RemoveGraphicMap id' => bool_decide (id' = id)
  | _ => false
  end.

(** Every key of the trail map is one that [trailKey] makes. *)
Definition trailKeysOnly (s : Store) : Prop :=
  ∀ key, is_Some (droneTrails s !! key) → endsWith key "_trail" = true.




End Store.

End MapStore.

(** ** types/gridTypes.ts : [VoxelGrid] *)
Module GridTypes.
Import Cesium.

(** [for (let i = 0; i < n; i++) body]: the counter runs over the integers
    below [n]. *)
Definition forUpTo {S : Type} (n : Z) (body : Z → S → S) (s : S) : S :=
  foldl (λ s i, body i s) s (seqZ 0 n).

Section VoxelGrid.
Context `{Objects}.

(** An instance: [viewer] is the application's viewer, whose scene
    [Cesium.Runtime] holds. *)
Record VoxelGrid := { primitive : option handle }.

(** [new VoxelGrid(viewer)] *)
Definition newVoxelGrid : VoxelGrid := {| primitive := None |}.

(** [clear()] *)
Definition clear (g : VoxelGrid) (r : Runtime) : VoxelGrid * Runtime :=
  match primitive g with
  | Some p => ({| primitive := None |}, removePrimitive p r)
  | None => (g, r)
  end.

(** Steps 1-4 of [create]: the three nested loops that push one instance per
    cell. *)
Definition voxelInstances (o : VoxelGridOptions) : list GeometryInstance :=
  let origin := fromDegrees (lon o) (lat o) (baseHeight o) in
  let enuTransform := eastNorthUpToFixedFrame origin in
  let boxGeometry :=
    boxOutlineFromDimensions
      (newCartesian3 (voxelSize o) (voxelSize o) (voxelSize o)) in
  forUpTo (countX o) (λ x,
    forUpTo (countY o) (λ y,
      forUpTo (countZ o) (λ z instances,
        let translation :=
          newCartesian3 (numMul (numOfZ x) (voxelSize o))
                        (numMul (numOfZ y) (voxelSize o))
                        (numMul (numOfZ z) (voxelSize o)) in
        let modelMatrix := multiplyByTranslation enuTransform translation in
        instances ++
          [{| geometry := boxGeometry; modelMatrix := modelMatrix;
              attributes := colorAttributeFromColor (color o) |}]))) [].

(** The instance [create] pushes in round (x, y, z). *)
Definition cell (o : VoxelGridOptions) (x y z : Z) : GeometryInstance :=
  {| geometry :=
       boxOutlineFromDimensions
         (newCartesian3 (voxelSize o) (voxelSize o) (voxelSize o));
     modelMatrix :=
       multiplyByTranslation
         (eastNorthUpToFixedFrame (fromDegrees (lon o) (lat o) (baseHeight o)))
         (newCartesian3 (numMul (numOfZ x) (voxelSize o))
                        (numMul (numOfZ y) (voxelSize o))
                        (numMul (numOfZ z) (voxelSize o)));
     attributes := colorAttributeFromColor (color o) |}.

(** The instances of the rounds (x, y, 0), (x, y, 1), ... *)
Definition column (o : VoxelGridOptions) (x y : Z) : list GeometryInstance :=
  cell o x y <$> seqZ 0 (countZ o).

(** The instances of all rounds with this x. *)
Definition slab (o : VoxelGridOptions) (x : Z) : list GeometryInstance :=
  mjoin (column o x <$> seqZ 0 (countY o)).

(** [create(options)] *)
Definition create (o : VoxelGridOptions) (g : VoxelGrid) (r : Runtime)
  : VoxelGrid * Runtime :=
  let '(_, r) := clear g r in
  let instances := voxelInstances o in
  let '(p, r) := allocate (build (VoxelPrimitive instances)) r in
  ({| primitive := Some p |}, addPrimitive p r).

(** A call of one of the two methods. *)
Inductive Call := Create (o : VoxelGridOptions) | Clear.

(** One call on an instance; beside the state, the primitives the instance
    has created so far. *)
Definition exec (c : Call) (st : VoxelGrid * Runtime * list handle)
  : VoxelGrid * Runtime * list handle :=
  let '(g, r, created) := st in
  match c with
  | Create o =>
      let '(g', r') := create o g r in
      (g', r', created ++ match primitive g' with Some p => [p] | None => [] end)
  | Clear => let '(g', r') := clear g r in (g', r', created)
  end.

(** A sequence of calls on a new instance. *)
Definition run (calls : list Call) (r : Runtime) : VoxelGrid * Runtime * list handle :=
  foldl (λ st c, exec c st) (newVoxelGrid, r, []) calls.

(** The primitives of the scene that the instance created. *)
Definition live (created : list handle) (r : Runtime) : list handle :=
  filter (λ p, p ∈ created) (primitives r).

(** What every call preserves: the scene's primitives were allocated, and
    those the instance created are the one it refers to, if any. *)
Definition oneAtMost (st : VoxelGrid * Runtime * list handle) : Prop :=
  allocatedPrimitives st.1.2
  ∧ live st.2 st.1.2 = option_list (primitive st.1.1).

(** The primitives of the scene that the instance did not create. *)
Definition others (created : list handle) (r : Runtime) : list handle :=
  filter (λ p, p ∉ created) (primitives r).

End VoxelGrid.

End GridTypes.

(** ** The state the helper modules work on *)
Module App.
Import Cesium MapStore GridTypes.

(** How a call ends. *)
Inductive outcome (A : Type) : Type :=
| returned (a : A)
| thrown.
Arguments returned {A} a.
Arguments thrown {A}.

Section World.
Context `{Objects}.

(** The runtime, the store, and the state that [gridConfig()] closes over. *)
Record World := {
  runtime : Runtime;
  mapStore : Store;
  gridEntities : list handle;          (* const gridEntities: Cesium.Entity[] *)
  voxelGrid : option VoxelGrid }.      (* shallowRef<VoxelGrid | null>(null) *)

Definition withRuntime (r : Runtime) (w : World) : World :=
  {| runtime := r; mapStore := mapStore w; gridEntities := gridEntities w;
     voxelGrid := voxelGrid w |}.

Definition withStore (s : Store) (w : World) : World :=
  {| runtime := runtime w; mapStore := s; gridEntities := gridEntities w;
     voxelGrid := voxelGrid w |}.

Definition withGridEntities (es : list handle) (w : World) : World :=
  {| runtime := runtime w; mapStore := mapStore w; gridEntities := es;
     voxelGrid := voxelGrid w |}.

Definition withVoxelGrid (g : option VoxelGrid) (w : World) : World :=
  {| runtime := runtime w; mapStore := mapStore w;
     gridEntities := gridEntities w; voxelGrid := g |}.

(** A console call. *)
Definition log (l : level) (m : message) (w : World) : World :=
  withRuntime (logTo l m (runtime w)) w.

(** [mapStore.setGraphicMap(id, graphic)] *)
Definition register (id : string) (graphic : any) (w : World) : World :=
  withStore (setGraphicMap id graphic (mapStore w)) w.

(** [w'] differs from [w] in the console at most: the same store (registry,
    trails, map), the same collections of the viewer, the same objects, the
    same state of the grid helpers. *)
Definition sameButConsole (w w' : World) : Prop :=
  mapStore w' = mapStore w
  ∧ gridEntities w' = gridEntities w
  ∧ voxelGrid w' = voxelGrid w
  ∧ entities (runtime w') = entities (runtime w)
  ∧ primitives (runtime w') = primitives (runtime w)
  ∧ containerChildren (runtime w') = containerChildren (runtime w)
  ∧ postRender (runtime w') = postRender (runtime w)
  ∧ cameraDestination (runtime w') = cameraDestination (runtime w)
  ∧ heap (runtime w') = heap (runtime w)
  ∧ nextHandle (runtime w') = nextHandle (runtime w).

End World.

End App.

(** ** components/cesiumMap/ts/setPoint.ts *)
Module SetPoint.
Import Cesium MapStore App.

Section SetPoint.
Context `{Objects}.

(** [setDroneTrail] of [setPath()].  The module components/cesiumMap/ts/setPath
    is not among the sources: what it does with the world is a parameter. *)
Variable setDroneTrail : string → Cartesian3 → World → World.

Definition setPointEntityByImg (o : PointOptions) (w : World) : any * World :=
  match getMap (mapStore w) with
  | None => (null, log LogError MapMissing w)
  | Some _ =>
      if hasGraphicMap (mapStore w) (pt_id o)
      then (getGraphicMap (mapStore w) (pt_id o),
            log LogWarn (PointExists (pt_id o)) w)
      else
        let '(pointEntity, r) := addEntity (PointEntity o) (runtime w) in
        (ref pointEntity, register (pt_id o) (ref pointEntity) (withRuntime r w))
  end.

(** [result.destroy()] of the object [setPointPrimitiveByImg] returns. *)
Definition destroyPoint (o : PointOptions) (div listener : handle) (w : World)
  : World :=
  let r := runtime w in
  let r :=
    {| entities := entities r; primitives := primitives r;
       containerChildren := filter (λ c, c ≠ div) (containerChildren r);
       postRender := filter (λ l, l ≠ listener) (postRender r);
       cameraDestination := cameraDestination r; heap := heap r;
       nextHandle := nextHandle r; console := console r |} in
  withStore (removeGraphicMap (pt_id o) (mapStore w)) (withRuntime r w).

Definition setPointPrimitiveByImg (o : PointOptions) (w : World) : any * World :=
  match getMap (mapStore w) with
  | None => (null, log LogError MapMissing w)
  | Some _ =>
      if hasGraphicMap (mapStore w) (pt_id o)
      then (getGraphicMap (mapStore w) (pt_id o),
            log LogWarn (PointExists (pt_id o)) w)
      else
        let '(div, r) := allocate (build (PointDiv o)) (runtime w) in
        let r := appendChild div r in
        let '(listener, r) := allocate (build (PostRenderListener div)) r in
        let r := addPostRender listener r in
        (* the first updateDivPosition() only restyles the div *)
        let '(result, r) := allocate (build (PointResult o div listener)) r in
        (ref result, register (pt_id o) (ref result) (withRuntime r w))
  end.

(** The callback of [billboardOptions.forEach], for the option with id [i]. *)
Definition addBatchPoint (o : BatchOptions) (w : World) (i : nat) : World :=
  let id := pretty i in
  if hasGraphicMap (mapStore w) id
  then log LogWarn (PointExists id) w
  else
    let '(billboard, r) := allocate (build (Billboard o i)) (runtime w) in
    let '(label, r) := allocate (build (Label o i)) r in
    let '(both, r) := allocate (build (BillboardLabel billboard label)) r in
    register id (ref both) (withRuntime r w).

Definition setBatchPointsByImg (o : BatchOptions) (w : World) : any * World :=
  match getMap (mapStore w) with
  | None => (null, log LogError MapMissing w)
  | Some _ =>
      let '(billboardCollection, r) :=
        allocate (build BillboardCollection) (runtime w) in
      let '(labelCollection, r) := allocate (build LabelCollection) r in
      let w := foldl (addBatchPoint o) (withRuntime r w) (seq 0 (Z.to_nat 10000)) in
      let r := addPrimitive labelCollection
                 (addPrimitive billboardCollection (runtime w)) in
      let '(result, r) :=
        allocate (build (BatchResult billboardCollection labelCollection)) r in
      (ref result, withRuntime r w)
  end.

Definition setPointByGlb (o : GlbOptions) (w : World) : any * World :=
  match getMap (mapStore w) with
  | None => (null, log LogError MapMissing w)
  | Some _ =>
      if hasGraphicMap (mapStore w) (glb_id o)
      then (getGraphicMap (mapStore w) (glb_id o),
            log LogWarn (PointExists (glb_id o)) w)
      else
        let '(modelEntity, r) := addEntity (ModelEntity o) (runtime w) in
        (ref modelEntity, register (glb_id o) (ref modelEntity) (withRuntime r w))
  end.

(** The entity is added under the caller's id, so the engine throws when the
    collection holds that id already. *)
Definition setDronePointByGlb (o : DroneOptions) (w : World)
  : outcome any * World :=
  match getMap (mapStore w) with
  | None => (returned null, log LogError MapMissing w)
  | Some _ =>
      if hasGraphicMap (mapStore w) (dr_id o)
      then (returned (getGraphicMap (mapStore w) (dr_id o)),
            log LogWarn (PointExists (dr_id o)) w)
      else
        match addNamedEntity (dr_id o) (DroneEntity o) (runtime w) with
        | None => (thrown, w)
        | Some (entity, r) =>
            let '(modelEntity, r) := allocate (build (DroneModel o entity)) r in
            let currentPosition :=
              fromDegrees (dr_lng o) (dr_lat o)
                (default (numOfZ 0) (dr_height o)) in
            let w := setDroneTrail (dr_id o) currentPosition (withRuntime r w) in
            (returned (ref modelEntity), register (dr_id o) (ref modelEntity) w)
        end
  end.

(** The numbers [i] of the rounds of [setBatchPointsByImg], whose ids are
    [`${i}`]. *)
Definition batchIds : list nat := seq 0 (Z.to_nat 10000).

End SetPoint.

End SetPoint.

(** ** components/cesiumMap/ts/geometry.ts *)
Module Geometry.
Import Cesium MapStore App.

Section Geometry.
Context `{Objects}.

(** What [getGraphicMap(id)] refers to, for an object of the heap. *)
Definition registered (w : World) (id : string) : option (handle * object) :=
  match getGraphicMap (mapStore w) id with
  | ref h => (λ o, (h, o)) <$> heap (runtime w) !! h
  | _ => None
  end.

(** In the [try] blocks below, what precedes the first write is an engine
    computation on the registered object: [None] is a throw, and so is a
    registered value behind which the heap has no object. *)

Definition conicalWave (o : ConeOptions) (w : World) : any * World :=
  match getMap (mapStore w) with
  | None => (null, log LogError MapMissing w)
  | Some _ =>
      if truthy (getGraphicMap (mapStore w) (cone_id o))
      then (null, log LogInfo (EffectExists (cone_id o)) w)
      else
        let '(primitive, r) := allocate (build (ConeWave o)) (runtime w) in
        let w := register (cone_id o) (ref primitive) (withRuntime r w) in
        (ref primitive, withRuntime (addPrimitive primitive (runtime w)) w)
  end.

Definition updateConeLengthOrPosition (u : SizeUpdate) (w : World) : bool * World :=
  match getMap (mapStore w) with
  | None => (false, log LogError MapMissing w)
  | Some _ =>
      match su_size u, su_positions u with
      | None, None => (false, log LogError SizeOrPositionRequired w)
      | _, _ =>
          if negb (truthy (getGraphicMap (mapStore w) (su_id u)))
          then (false, log LogError (WaveMissing (su_id u)) w)
          else
            match registered w (su_id u) with
            | None => (false, log LogError WaveUpdateFailed w)
            | Some (oldPrimitive, old) =>
                match resizeCone old (su_size u) (su_positions u) with
                | None => (false, log LogError WaveUpdateFailed w)
                | Some new =>
                    let '(newPrimitive, r) := allocate new (runtime w) in
                    let r := removePrimitive oldPrimitive r in
                    let r := addPrimitive newPrimitive r in
                    let w := register (su_id u) (ref newPrimitive) (withRuntime r w) in
                    (true, log LogInfo (WaveUpdated (su_id u)) w)
                end
            end
      end
  end.

Definition updateConePose (u : PoseUpdate) (w : World) : bool * World :=
  match getMap (mapStore w) with
  | None => (false, log LogError MapMissing w)
  | Some _ =>
      if negb (truthy (getGraphicMap (mapStore w) (pu_id u)))
      then (false, log LogError (WaveMissing (pu_id u)) w)
      else
        match registered w (pu_id u) with
        | None => (false, log LogError WaveUpdateFailed w)
        | Some (primitive, old) =>
            match poseCone old (pu_heading u) (pu_pitch u) with
            | None => (false, log LogError WaveUpdateFailed w)
            | Some new =>
                let w := withRuntime (mutate primitive new (runtime w)) w in
                let w := register (pu_id u) (ref primitive) w in
                (true, log LogInfo (WaveUpdated (pu_id u)) w)
            end
        end
  end.

Definition rectangularPyramidWave (o : PyramidOptions) (w : World) : any * World :=
  match getMap (mapStore w) with
  | None => (null, log LogError MapMissing w)
  | Some _ =>
      if truthy (getGraphicMap (mapStore w) (pyr_id o))
      then (null, log LogInfo (EffectExists (pyr_id o)) w)
      else
        let '(primitive, r) := allocate (build (PyramidWave o)) (runtime w) in
        let w := register (pyr_id o) (ref primitive) (withRuntime r w) in
        (ref primitive, withRuntime (addPrimitive primitive (runtime w)) w)
  end.

(** Unlike [updateConePose] it neither caches the angles nor registers the
    primitive again. *)
Definition updateRectangularPyramidWavePose (u : PoseUpdate) (w : World)
  : bool * World :=
  match getMap (mapStore w) with
  | None => (false, log LogError MapMissing w)
  | Some _ =>
      if negb (truthy (getGraphicMap (mapStore w) (pu_id u)))
      then (false, log LogError (WaveMissing (pu_id u)) w)
      else
        match registered w (pu_id u) with
        | None => (false, log LogError WaveUpdateFailed w)
        | Some (primitive, old) =>
            match posePyramid old (pu_heading u) (pu_pitch u) with
            | None => (false, log LogError WaveUpdateFailed w)
            | Some new =>
                let w := withRuntime (mutate primitive new (runtime w)) w in
                (true, log LogInfo (WaveUpdated (pu_id u)) w)
            end
        end
  end.

Definition updateRectangularPyramidLengthOrPosition (u : SizeUpdate) (w : World)
  : bool * World :=
  match getMap (mapStore w) with
  | None => (false, log LogError MapMissing w)
  | Some _ =>
      match su_size u, su_positions u with
      | None, None => (false, log LogError SizeOrPositionRequired w)
      | _, _ =>
          if negb (truthy (getGraphicMap (mapStore w) (su_id u)))
          then (false, log LogError (WaveMissing (su_id u)) w)
          else
            match registered w (su_id u) with
            | None => (false, log LogError WaveUpdateFailed w)
            | Some (oldPrimitive, old) =>
                match resizePyramid old (su_size u) (su_positions u) with
                | None => (false, log LogError WaveUpdateFailed w)
                | Some new =>
                    let '(newPrimitive, r) := allocate new (runtime w) in
                    let r := removePrimitive oldPrimitive r in
                    let r := addPrimitive newPrimitive r in
                    let w := register (su_id u) (ref newPrimitive) (withRuntime r w) in
                    (true, log LogInfo (WaveUpdated (su_id u)) w)
                end
            end
      end
  end.

(** The world after a failed update: the world before it with one error
    message more on the console. *)
Definition failedWith (w w' : World) : Prop :=
  sameButConsole w w'
  ∧ ∃ m, console (runtime w') = console (runtime w) ++ [(LogError, m)].

(** The world after a resize of the wave [id]: a new primitive, the next
    object allocated, stands for [old] in the scene and in the registry. *)
Definition replacedIn (id : string) (old : handle) (new : object) (w w' : World)
  : Prop :=
  let h := nextHandle (runtime w) in
  primitives (runtime w') = removeFirst old (primitives (runtime w)) ++ [h]
  ∧ heap (runtime w') = <[h := new]> (heap (runtime w))
  ∧ graphicMap (mapStore w') = <[id := ref h]> (graphicMap (mapStore w))
  ∧ getMap (mapStore w') = getMap (mapStore w)
  ∧ entities (runtime w') = entities (runtime w)
  ∧ console (runtime w') = console (runtime w) ++ [(LogInfo, WaveUpdated id)].

(** The world after a pose update of the primitive [p]: the object behind
    [p] has changed; nothing was created, removed or registered. *)
Definition updatedInPlace (id : string) (p : handle) (new : object) (w w' : World)
  : Prop :=
  heap (runtime w') = <[p := new]> (heap (runtime w))
  ∧ mapStore w' = mapStore w
  ∧ primitives (runtime w') = primitives (runtime w)
  ∧ entities (runtime w') = entities (runtime w)
  ∧ nextHandle (runtime w') = nextHandle (runtime w)
  ∧ console (runtime w') = console (runtime w) ++ [(LogInfo, WaveUpdated id)].

End Geometry.

End Geometry.

(** ** components/cesiumMap/ts/grid.ts *)
Module Grid.
Import Cesium MapStore GridTypes App.

Section Grid.
Context `{Objects}.

(** [for (let i = from; i <= to; i += step) body].  The loop need not end (a
    step of zero never leaves it), so it runs on fuel: [None] when the fuel is
    used up before the loop is left. *)
Fixpoint forLe {S : Type} (fuel : nat) (i to step : number)
    (body : number → S → S) (s : S) : option S :=
  if numLe i to then
    match fuel with
    | O => None
    | Datatypes.S fuel => forLe fuel (numAdd i step) to step body (body i s)
    end
  else Some s.

(** [gridEntities.push(map.entities.add({ polyline: ... }))] *)
Definition addLine (req : request) (w : World) : World :=
  let '(entity, r) := addEntity req (runtime w) in
  withGridEntities (gridEntities w ++ [entity]) (withRuntime r w).

Definition createGridEffect (fuel : nat) (o : GridOptions) (w : World)
  : option World :=
  match getMap (mapStore w) with
  | None => Some (log LogInfo MapMissing w)
  | Some _ =>
      w ← forLe fuel (south o) (north o) (step o)
            (λ lat, addLine (LatitudeLine o lat)) w;
      forLe fuel (west o) (east o) (step o)
        (λ lon, addLine (LongitudeLine o lon)) w
  end.

Definition clearAirGrid (w : World) : World :=
  match getMap (mapStore w) with
  | None => log LogInfo MapMissing w
  | Some _ =>
      let r := foldl (λ r e, removeEntity (guid e) r) (runtime w) (gridEntities w) in
      withGridEntities [] (withRuntime r w)
  end.

Definition create3DVoxelGrid (w : World) : World :=
  match getMap (mapStore w) with
  | None => log LogInfo MapMissing w
  | Some _ =>
      let r :=
        flyTo (fromDegrees (decimal 1167 (-1)) (decimal 317 (-1)) (decimal 30000 0))
          (runtime w) in
      let '(g, r) :=
        create
          {| lon := decimal 11665 (-2); lat := decimal 3165 (-2);
             baseHeight := decimal 0 0; voxelSize := decimal 1000 0;
             countX := 10; countY := 10; countZ := 10;
             color := Some (cyanWithAlpha (decimal 2 (-2))) |}
          newVoxelGrid r in
      withVoxelGrid (Some g) (withRuntime r w)
  end.

(** Several [createGridEffect] calls in a row. *)
Fixpoint createGridEffects (fuel : nat) (calls : list GridOptions) (w : World)
  : option World :=
  match calls with
  | [] => Some w
  | o :: calls => w ← createGridEffect fuel o w; createGridEffects fuel calls w
  end.

(** The entity [map.entities.add] returns for a polyline. *)
Definition line (h : handle) : Entity := {| entityId := guid h; entityRef := h |}.

(** [w'] is [w] after some lines were added: the new entities [hs] are in the
    viewer's collection and in [gridEntities], nothing else of the two lists
    and of the store has changed. *)
Definition extendedBy (hs : list handle) (w w' : World) : Prop :=
  mapStore w' = mapStore w
  ∧ gridEntities w' = gridEntities w ++ hs
  ∧ entities (runtime w') = entities (runtime w) ++ (line <$> hs)
  ∧ (nextHandle (runtime w) ≤ nextHandle (runtime w'))%nat
  ∧ ∀ h, h ∈ hs → (nextHandle (runtime w) ≤ h)%nat.

(** The options [create3DVoxelGrid] passes to [create]. *)
Definition demoVoxels : VoxelGridOptions :=
  {| lon := decimal 11665 (-2); lat := decimal 3165 (-2);
     baseHeight := decimal 0 0; voxelSize := decimal 1000 0;
     countX := 10; countY := 10; countZ := 10;
     color := Some (cyanWithAlpha (decimal 2 (-2))) |}.

(** The values the counter of [for (let i = from; i <= to; i += step)]
    takes, one per round; [None] when the fuel is used up before the loop is
    left. *)
Fixpoint rounds (fuel : nat) (i to step : number) : option (list number) :=
  if numLe i to then
    match fuel with
    | O => None
    | S fuel => cons i <$> rounds fuel (numAdd i step) to step
    end
  else Some [].

(** The polylines of a [createGridEffect] call, in the order in which they
    are added: one per latitude, then one per longitude. *)
Definition gridLines (o : GridOptions) (lats lons : list number) : list request :=
  (LatitudeLine o <$> lats) ++ (LongitudeLine o <$> lons).

End Grid.

End Grid.

(** ** The helpers as one interface *)
Module Helpers.
Import Cesium MapStore App.

Section Helpers.
Context `{Objects}.

Variable setDroneTrail : string → Cartesian3 → World → World.

(** A call of a creation or update helper of setPoint.ts, geometry.ts or
    grid.ts. *)
Inductive Operation :=
| SetPointEntityByImg (o : PointOptions)
| SetPointPrimitiveByImg (o : PointOptions)
| SetBatchPointsByImg (o : BatchOptions)
| SetPointByGlb (o : GlbOptions)
| SetDronePointByGlb (o : DroneOptions)
| ConicalWave (o : ConeOptions)
| UpdateConeLengthOrPosition (u : SizeUpdate)
| UpdateConePose (u : PoseUpdate)
| RectangularPyramidWave (o : PyramidOptions)
| UpdateRectangularPyramidWavePose (u : PoseUpdate)
| UpdateRectangularPyramidLengthOrPosition (u : SizeUpdate)
| CreateGridEffect (o : GridOptions)
| ClearAirGrid
| Create3DVoxelGrid.

(** What a helper returns: an object or [null], a boolean, or nothing
    ([undefined]). *)
Inductive result := value (v : any) | flag (b : bool) | nothing.

Definition valueOf (p : any * World) : option (outcome result * World) :=
  Some (returned (value p.1), p.2).

Definition flagOf (p : bool * World) : option (outcome result * World) :=
  Some (returned (flag p.1), p.2).

(** The call with its result and the world after it; [None] when a loop of
    the call uses up the fuel. *)
Definition call (fuel : nat) (op : Operation) (w : World)
  : option (outcome result * World) :=
  match op with
  | SetPointEntityByImg o => valueOf (SetPoint.setPointEntityByImg o w)
  | SetPointPrimitiveByImg o => valueOf (SetPoint.setPointPrimitiveByImg o w)
  | SetBatchPointsByImg o => valueOf (SetPoint.setBatchPointsByImg o w)
  | SetPointByGlb o => valueOf (SetPoint.setPointByGlb o w)
  | SetDronePointByGlb o =>
      match SetPoint.setDronePointByGlb setDroneTrail o w with
      | (returned v, w) => Some (returned (value v), w)
      | (thrown, w) => Some (thrown, w)
      end
  | ConicalWave o => valueOf (Geometry.conicalWave o w)
  | UpdateConeLengthOrPosition u => flagOf (Geometry.updateConeLengthOrPosition u w)
  | UpdateConePose u => flagOf (Geometry.updateConePose u w)
  | RectangularPyramidWave o => valueOf (Geometry.rectangularPyramidWave o w)
  | UpdateRectangularPyramidWavePose u =>
      flagOf (Geometry.updateRectangularPyramidWavePose u w)
  | UpdateRectangularPyramidLengthOrPosition u =>
      flagOf (Geometry.updateRectangularPyramidLengthOrPosition u w)
  | CreateGridEffect o =>
      (λ w, (returned nothing, w)) <$> Grid.createGridEffect fuel o w
  | ClearAirGrid => Some (returned nothing, Grid.clearAirGrid w)
  | Create3DVoxelGrid => Some (returned nothing, Grid.create3DVoxelGrid w)
  end.

(** What the helper returns when there is no map: [null] from a helper that
    creates, [false] from one that updates, nothing from a grid helper. *)
Definition resultWithoutMap (op : Operation) : result :=
  match op with
  | SetPointEntityByImg _ | SetPointPrimitiveByImg _ | SetBatchPointsByImg _
  | SetPointByGlb _ | SetDronePointByGlb _ | ConicalWave _
  | RectangularPyramidWave _ => value null
  | UpdateConeLengthOrPosition _ | UpdateConePose _
  | UpdateRectangularPyramidWavePose _
  | UpdateRectangularPyramidLengthOrPosition _ => flag false
  | CreateGridEffect _ | ClearAirGrid | Create3DVoxelGrid => nothing
  end.

(** The console method it reports with: the grid helpers use [console.log],
    the others [console.error]. *)
Definition levelWithoutMap (op : Operation) : level :=
  match op with
  | CreateGridEffect _ | ClearAirGrid | Create3DVoxelGrid => LogInfo
  | _ => LogError
  end.

End Helpers.

End Helpers.

(** ** components/cesiumMap/ts/setPath.ts : the trail of a drone *)
Module SetPath.

Section Trail.
Context {Position : Type}.

(** Modelled from the spec: setPath.ts, which keeps the drone trails, is
    not among the sources.  The spec says: "append a point if it is farther
    than a fixed distance from the last point, then drop points older than a
    configured retention window (or retain forever if retention is
    negative)".  [farther a b] says that the distance between [a] and [b]
    exceeds the fixed threshold; times and the retention are in seconds. *)
Variable farther : Position → Position → bool.

Record TrailPoint := { position : Position; time : Z }.

(** Modelled from the spec: the sample is appended when it is farther than
    the threshold from the last point kept; a trail without points takes its
    first sample. *)
Definition appendSample (now : Z) (p : Position) (trail : list TrailPoint)
  : list TrailPoint :=
  match last trail with
  | Some l =>
      if farther (position l) p
      then trail ++ [{| position := p; time := now |}]
      else trail
  | None => [{| position := p; time := now |}]
  end.

(** Modelled from the spec: a point is older than the window when more than
    [retention] seconds have passed since its time. *)
Definition expired (retention now : Z) (pt : TrailPoint) : bool :=
  bool_decide (retention < now - time pt).

(** Modelled from the spec: a negative retention keeps every point. *)
Definition dropExpired (retention now : Z) (trail : list TrailPoint)
  : list TrailPoint :=
  if bool_decide (retention < 0) then trail
  else filter (λ pt, expired retention now pt = false) trail.

(** Modelled from the spec: the maintenance step for one position sample. *)
Definition updateTrail (retention now : Z) (p : Position)
    (trail : list TrailPoint) : list TrailPoint :=
  dropExpired retention now (appendSample now p trail).

End Trail.

End SetPath.

(** ** components/cesiumMap/index.vue : the map options *)
Module CesiumMapView.
Import ObjectUtils.

(** [if (v)] on data. *)
Definition isTruthy (v : value) : bool :=
  match v with
  | VUndefined | VNull => false
  | VBool b => b
  | VNum n => negb (n =? 0)
  | VStr s => negb (String.eqb s "")
  | VObj _ _ => true
  end.

(** [initCesium]: the options read from the file at [props.url]
    ([undefined] without a url) and [props.options] laid over them. *)
Definition mapOptionsOf (fileOptions options : value) : value :=
  if isTruthy options then
    if isTruthy fileOptions
    then merge fileOptions options defaultOptions
    else options
  else fileOptions.

(** views/map/index.vue: the [options] the map view passes, an object with
    the centre of the scene. *)
Definition viewOptions (lat lng alt : value) : value :=
  objectOf [("scene", objectOf [("center",
    objectOf [("lat", lat); ("lng", lng); ("alt", alt)])])].

(** [v == null]: the values a property read throws a TypeError on. *)
Definition nullish (v : value) : bool :=
  match v with VUndefined | VNull => true | _ => false end.

(** The property reads of the [try] block of [initCesium] that go through a
    member of the options, [mapOptions.control.x], [mapOptions.terrain.x],
    [mapOptions.scene.center.x] and [mapOptions.scene.globe.x]: whether none
    of them throws. *)
Definition optionsReadable (mapOptions : value) : bool :=
  negb (nullish mapOptions)
  && negb (nullish (get mapOptions "control"))
  && negb (nullish (get mapOptions "terrain"))
  && negb (nullish (get mapOptions "scene"))
  && negb (nullish (get (get mapOptions "scene") "center"))
  && negb (nullish (get (get mapOptions "scene") "globe")).

Section InitCesium.

(** Whether the engine calls of the [try] block return, given the options. *)
Variable engineReturns : value → bool.

(** [initCesium] with its container: whether it gets to
    [emit("onload", map)], the last statement of its [try] block. *)
Definition emitsOnload (fileOptions options : value) : bool :=
  let mapOptions := mapOptionsOf fileOptions options in
  optionsReadable mapOptions && engineReturns mapOptions.

End InitCesium.

End CesiumMapView.


(** ** A reference engine

    Numbers are fixed-point integers (millionths), points and frames are
    triples, and an object is the request it was built from. *)
Module Reference.
Import Cesium.

Definition add3 (a b : Z * Z * Z) : Z * Z * Z :=
  (a.1.1 + b.1.1, a.1.2 + b.1.2, a.2 + b.2).

Definition engine : Engine :=
  {| number := Z; Cartesian3 := Z * Z * Z; Matrix4 := Z * Z * Z;
     Geometry := Z * Z * Z; Color := Z; ColorAttribute := option Z;
     decimal := λ m e, m * 10 ^ (6 + e);
     numAdd := Z.add;
     numMul := λ a b, a * b / 10 ^ 6;
     numLe := Z.leb;
     fromDegrees := λ a b c, (a, b, c);
     newCartesian3 := λ a b c, (a, b, c);
     eastNorthUpToFixedFrame := λ origin, origin;
     multiplyByTranslation := add3;
     boxOutlineFromDimensions := λ d, d;
     colorAttributeFromColor := λ c, c;
     cyanWithAlpha := λ a, a |}.

Definition resized (o : @request engine) (size : option Z)
    (positions : option (Z * Z * Z)) : option (@request engine) :=
  match o with
  | ConeWave c =>
      Some (ConeWave
        {| cone_id := cone_id c;
           cone_positions :=
             from_option (λ p, [p.1.1; p.1.2; p.2]) (cone_positions c) positions;
           cone_heading := cone_heading c; cone_pitch := cone_pitch c;
           cone_length := default (cone_length c) size;
           cone_bottomRadius := cone_bottomRadius c;
           cone_thickness := cone_thickness c; cone_color := cone_color c |})
  | _ => None
  end.

Definition posed (o : @request engine) (heading pitch : option Z)
  : option (@request engine) :=
  match o, heading, pitch with
  | ConeWave c, Some h, Some p =>
      Some (ConeWave
        {| cone_id := cone_id c; cone_positions := cone_positions c;
           cone_heading := h; cone_pitch := p; cone_length := cone_length c;
           cone_bottomRadius := cone_bottomRadius c;
           cone_thickness := cone_thickness c; cone_color := cone_color c |})
  | _, _, _ => None
  end.

Definition objects : @Objects engine :=
  {| object := @request engine; build := λ req, req;
     resizeCone := resized; poseCone := posed;
     resizePyramid := λ _ _ _, None; posePyramid := λ _ _ _, None |}.

#[local] Existing Instance engine.
#[local] Existing Instance objects.

(** A runtime with nothing in it. *)
Definition emptyRuntime : @Runtime engine objects :=
  {| entities := []; primitives := []; containerChildren := [];
     postRender := []; cameraDestination := None; heap := ∅;
     nextHandle := 0%nat; console := [] |}.

(** The world before the map has loaded, and once it has. *)
Definition emptyWorld : @App.World engine objects :=
  {| App.runtime := emptyRuntime; App.mapStore := MapStore.initialStore;
     App.gridEntities := []; App.voxelGrid := None |}.

Definition loadedWorld : @App.World engine objects :=
  App.withStore (MapStore.setMap (Some MapStore.viewer) MapStore.initialStore)
    emptyWorld.

(** A grid of 2 × 1 × 3 voxels of 100 m. *)
Definition sampleVoxels : @VoxelGridOptions engine :=
  {| lon := 116650000; lat := 31650000; baseHeight := 0;
     voxelSize := 100000000; countX := 2; countY := 1; countZ := 3;
     color := None |}.

(** One degree square with lines every half degree. *)
Definition sampleGrid : @GridOptions engine :=
  {| west := 116000000; south := 31000000; east := 117000000;
     north := 32000000; step := 500000; height := 1000000000 |}.

(** A point "p1". *)
Definition samplePoint : @PointOptions engine :=
  {| pt_id := "p1"; pt_lng := 117229619; pt_lat := 31726288; pt_name := None |}.

(** A pose update for "p1". *)
Definition samplePose : @PoseUpdate engine :=
  {| pu_id := "p1"; pu_heading := Some 90000000; pu_pitch := None |}.

(** The loaded world with an entity registered as "p1". *)
Definition worldWithPoint : @App.World engine objects :=
  (SetPoint.setPointEntityByImg samplePoint loadedWorld).2.

(** The world without a map whose registry holds "p1" all the same. *)
Definition worldWithoutMap : @App.World engine objects :=
  App.withStore (MapStore.setMap None (App.mapStore worldWithPoint)) worldWithPoint.

(** The loaded world after one [createGridEffect] call. *)
Definition gridWorld : @App.World engine objects :=
  default loadedWorld (Grid.createGridEffects 3 [sampleGrid] loadedWorld).

(** Positions on a line, one metre as the threshold of the trail. *)
Definition fartherThanOne (a b : Z) : bool := 1 <? Z.abs (a - b).

(** A drone trail module that leaves the world alone. *)
Definition noTrail (id : string) (p : Z * Z * Z)
    (w : @App.World engine objects) : @App.World engine objects := w.

(** The map options of a file: a scene with a centre and a mode, and the
    controls. *)
Definition sampleFileOptions : ObjectUtils.value :=
  ObjectUtils.objectOf
    [("scene", ObjectUtils.objectOf
       [("center", ObjectUtils.objectOf
          [("lat", ObjectUtils.VNum 0); ("heading", ObjectUtils.VNum 7)]);
        ("mode", ObjectUtils.VStr "3D")]);
     ("control", ObjectUtils.objectOf [("homeButton", ObjectUtils.VBool false)])].

(** A cone "c1" of 1000 m, and updates for it. *)
Definition sampleCone : @ConeOptions engine :=
  {| cone_id := "c1"; cone_positions := [117229619; 31726288; 0];
     cone_heading := 0; cone_pitch := 0; cone_length := 1000000000;
     cone_bottomRadius := 500000000; cone_thickness := 100000;
     cone_color := "#00ffff" |}.

Definition sampleResize : @SizeUpdate engine :=
  {| su_id := "c1"; su_size := Some 2000000000; su_positions := None |}.

Definition sampleConePose : @PoseUpdate engine :=
  {| pu_id := "c1"; pu_heading := Some 90000000; pu_pitch := Some 45000000 |}.

(** The loaded world with the cone "c1" in the scene. *)
Definition worldWithCone : @App.World engine objects :=
  (Geometry.conicalWave sampleCone loadedWorld).2.

(** [sampleGrid] with a step of zero. *)
Definition stuckGrid : @GridOptions engine :=
  {| west := 116000000; south := 31000000; east := 117000000;
     north := 32000000; step := 0; height := 1000000000 |}.

Definition sampleBatch : @BatchOptions engine :=
  {| bt_lng := 117000000; bt_lat := 31000000; bt_name := None |}.

(** A drone "d1" at 100 m. *)
Definition sampleDrone : @DroneOptions engine :=
  {| dr_id := "d1"; dr_lng := 117229619; dr_lat := 31726288;
     dr_height := Some 100000000; dr_heading := None |}.

(** The loaded world after the drone "d1" was created and its registry
    entry removed: its entity is still in the viewer's collection. *)
Definition worldWithDroneEntity : @App.World engine objects :=
  let w := (SetPoint.setDronePointByGlb noTrail sampleDrone loadedWorld).2 in
  App.withStore (MapStore.removeGraphicMap "d1" (App.mapStore w)) w.

End Reference.

(** * Part II: properties *)

(** ** [merge] *)
Module ObjectUtilsSpec.
Import ObjectUtils.

Lemma lookupProp_assign_eq key v props :
  lookupProp key (assignProp key v props) = Some v.
Proof.
  induction props as [|[k w] rest IH]; simpl.
  - by rewrite decide_True.
  - destruct (decide (k = key)) as [->|Hne]; simpl.
    + by rewrite decide_True.
    + by rewrite decide_False.
Qed.

Lemma lookupProp_assign_ne key key' v props :
  key ≠ key' →
  lookupProp key (assignProp key' v props) = lookupProp key props.
Proof.
  intros Hne. induction props as [|[k w] rest IH]; simpl.
  - by rewrite decide_False.
  - destruct (decide (k = key')) as [->|Hk]; simpl.
    + by rewrite !decide_False.
    + by rewrite IH.
Qed.



Lemma get_set_eq o key v : isObject o = true → get (set o key v) key = v.
Proof. destruct o; try done. intros _. simpl. by rewrite lookupProp_assign_eq. Qed.

Lemma get_set_ne o key key' v : key ≠ key' → get (set o key' v) key = get o key.
Proof. intros Hne. destruct o; try done. simpl. by rewrite lookupProp_assign_ne. Qed.

Lemma isObject_set o key v : isObject (set o key v) = isObject o.
Proof. by destruct o. Qed.

Lemma isArray_set o key v : isArray (set o key v) = isArray o.
Proof. by destruct o. Qed.



(** A callback of the object branch touches the property it is called for
    and no other. *)
Lemma mergeProperty_frame self deep overwrite targetObj entry key :
  key ≠ entry.1 →
  get (mergeProperty self deep overwrite targetObj entry) key = get targetObj key.
Proof.
  destruct entry as [k sourceValue]. simpl. intros Hne.
  repeat case_match; try done; by rewrite get_set_ne.
Qed.

Lemma mergeItem_frame self targetArr entry key :
  key ≠ entry.1 → get (mergeItem self targetArr entry) key = get targetArr key.
Proof.
  destruct entry as [k item]. simpl. intros Hne.
  repeat case_match; try done; by rewrite get_set_ne.
Qed.

#[local] Arguments mergeProperty : simpl never.
#[local] Arguments mergeItem : simpl never.

Lemma foldl_mergeProperty_frame self deep overwrite entries targetObj key :
  key ∉ entries.*1 →
  get (foldl (mergeProperty self deep overwrite) targetObj entries) key
  = get targetObj key.
Proof.
  revert targetObj. induction entries as [|entry rest IH]; intros t Hnot; [done|].
  csimpl in *. apply not_elem_of_cons in Hnot as [Hne Hrest].
  rewrite IH by done. by apply mergeProperty_frame.
Qed.

Lemma foldl_mergeItem_frame self entries targetArr key :
  key ∉ entries.*1 →
  get (foldl (mergeItem self) targetArr entries) key = get targetArr key.
Proof.
  revert targetArr. induction entries as [|entry rest IH]; intros t Hnot; [done|].
  csimpl in *. apply not_elem_of_cons in Hnot as [Hne Hrest].
  rewrite IH by done. by apply mergeItem_frame.
Qed.


Lemma mergeProperty_at self deep overwrite targetObj key sourceValue :
  isObject targetObj = true →
  get (mergeProperty self deep overwrite targetObj (key, sourceValue)) key
  = mergedValue self deep overwrite (get targetObj key) sourceValue.
Proof.
  intros Hobj. unfold mergeProperty, mergedValue.
  repeat case_match; try done; by rewrite get_set_eq.
Qed.

Lemma isObject_mergeProperty self deep overwrite targetObj entry :
  isObject (mergeProperty self deep overwrite targetObj entry) = isObject targetObj.
Proof.
  destruct entry as [k sourceValue]. unfold mergeProperty.
  repeat case_match; try done; by rewrite isObject_set.
Qed.

Lemma foldl_mergeProperty_at self deep overwrite entries targetObj key sourceValue :
  NoDup entries.*1 →
  lookupProp key entries = Some sourceValue →
  isObject targetObj = true →
  get (foldl (mergeProperty self deep overwrite) targetObj entries) key
  = mergedValue self deep overwrite (get targetObj key) sourceValue.
Proof.
  revert targetObj.
  induction entries as [|[k v] rest IH]; intros t Hnodup Hlookup Hobj; [done|].
  csimpl in *. apply NoDup_cons in Hnodup as [Hfresh Hnodup].
  destruct (decide (k = key)) as [->|Hne].
  - injection Hlookup as ->.
    rewrite foldl_mergeProperty_frame by done. by apply mergeProperty_at.
  - rewrite (IH (mergeProperty self deep overwrite t (k, v)));
      [|done|done|by rewrite isObject_mergeProperty].
    by rewrite mergeProperty_frame by (simpl; congruence).
Qed.

(** The object branch, key by key: under every key of a plain source object,
    the result holds what [mergedValue] makes of the two values. *)
Lemma mergeWith_at deep overwrite target sourceProps key sourceValue :
  NoDup sourceProps.*1 →
  lookupProp key sourceProps = Some sourceValue →
  get (mergeWith deep overwrite target (VObj false sourceProps)) key
  = mergedValue (mergeWith deep overwrite) deep overwrite
      (get target key) sourceValue.
Proof.
  intros Hnodup Hlookup. simpl.
  destruct (isObject target) eqn:Hobj.
  - by apply foldl_mergeProperty_at.
  - rewrite (foldl_mergeProperty_at _ _ _ _ _ _ sourceValue) by done.
    by destruct target.
Qed.

(** Where the source value is no nested plain object (or the merge is
    shallow), the source wins when overwrite is set. *)
Lemma merge_source_wins deep target sourceProps key sourceValue :
  NoDup sourceProps.*1 →
  lookupProp key sourceProps = Some sourceValue →
  deep && isPlainObject sourceValue = false →
  get (mergeWith deep true target (VObj false sourceProps)) key = sourceValue.
Proof.
  intros Hnodup Hlookup Hleaf. rewrite (mergeWith_at _ _ _ _ _ sourceValue) by done.
  unfold mergedValue. by rewrite Hleaf.
Qed.

(** ... and a defined target value stays when overwrite is off. *)
Lemma merge_target_stays deep target sourceProps key sourceValue :
  NoDup sourceProps.*1 →
  lookupProp key sourceProps = Some sourceValue →
  deep && isPlainObject sourceValue = false →
  isUndefined (get target key) = false →
  get (mergeWith deep false target (VObj false sourceProps)) key = get target key.
Proof.
  intros Hnodup Hlookup Hleaf Hdef.
  rewrite (mergeWith_at _ _ _ _ _ sourceValue) by done.
  unfold mergedValue. by rewrite Hleaf, Hdef.
Qed.

(** A deep merge of a nested plain object onto a target value that is no
    object leaves an empty object, whatever the nested object holds and
    whatever overwrite says. *)
Lemma merge_nested_onto_non_object overwrite target sourceProps key nested :
  NoDup sourceProps.*1 →
  lookupProp key sourceProps = Some (VObj false nested) →
  isObject (get target key) = false →
  get (mergeWith true overwrite target (VObj false sourceProps)) key = VObj false [].
Proof.
  intros Hnodup Hlookup Hnon.
  rewrite (mergeWith_at _ _ _ _ _ (VObj false nested)) by done.
  unfold mergedValue. simpl. by rewrite Hnon.
Qed.

(** In the array branch an element that both arrays hold and that is no
    object keeps the target's value, also with overwrite set: the recursive
    call returns its target when its source is no object. *)
Example merge_array_keeps_target_elements :
  merge (arrayOf [VNum 1; VNum 2]) (arrayOf [VNum 9; VNum 8; VNum 7]) defaultOptions
  = arrayOf [VNum 1; VNum 2; VNum 7].
Proof. reflexivity. Qed.

(** C1, at the input where the code departs from it.  [merge({}, {a: {b: 1}})]
    with the default options returns [{a: {}}]: the nested content of the
    source is not in the result; and with overwrite = false the defined
    target value 5 of [{a: 5}] is replaced by [{}]. *)
Theorem merge_loses_nested_source :
  merge (objectOf []) (objectOf [("a", objectOf [("b", VNum 1)])]) defaultOptions
  = objectOf [("a", objectOf [])]
  ∧ get (merge (objectOf [("a", VNum 5)])
               (objectOf [("a", objectOf [("b", VNum 1)])])
               {| deep := None; overwrite := Some false |}) "a"
    = objectOf [].
Proof. split; reflexivity. Qed.




End ObjectUtilsSpec.

(** ** The graphic registry *)
Module MapStoreSpec.
Import Cesium MapStore.

Section Registry.
Context `{Engine}.

Lemma hasGraphicMap_true (s : Store) id :
  hasGraphicMap s id = true ↔ is_Some (graphicMap s !! id).
Proof. unfold hasGraphicMap. by rewrite bool_decide_eq_true. Qed.

Lemma hasGraphicMap_set_eq (s : Store) id g :
  hasGraphicMap (setGraphicMap id g s) id = true.
Proof. apply hasGraphicMap_true. simpl. rewrite lookup_insert_eq. eauto. Qed.

Lemma graphicMap_set_ne (s : Store) id id' g :
  id' ≠ id → graphicMap (setGraphicMap id g s) !! id' = graphicMap s !! id'.
Proof. intros Hne. simpl. by rewrite lookup_insert_ne. Qed.

Lemma graphicMap_remove_ne (s : Store) id id' :
  id' ≠ id → graphicMap (removeGraphicMap id s) !! id' = graphicMap s !! id'.
Proof. intros Hne. simpl. by rewrite lookup_delete_ne. Qed.

(** A call that is not [removeGraphicMap(id)] leaves the entry of [id] in
    the registry. *)
Lemma exec_keeps_entry (c : Call) (s : Store) id :
  removes id c = false →
  hasGraphicMap s id = true → hasGraphicMap (exec c s) id = true.
Proof.
  intros Hc. rewrite !hasGraphicMap_true.
  destruct c; simpl in *; try done.
  - destruct (decide (id0 = id)) as [->|Hne].
    + rewrite lookup_insert_eq. eauto.
    + by rewrite lookup_insert_ne.
  - apply bool_decide_eq_false in Hc. by rewrite lookup_delete_ne.
Qed.

Lemma run_keeps_entry (calls : list Call) (s : Store) id :
  (∀ c, c ∈ calls → removes id c = false) →
  hasGraphicMap s id = true → hasGraphicMap (run calls s) id = true.
Proof.
  unfold run. revert s.
  induction calls as [|c calls IH]; intros s Hcalls Hin; [done|].
  simpl. apply IH.
  - intros c' Hc'. apply Hcalls. by apply elem_of_cons; right.
  - apply exec_keeps_entry; [|done]. apply Hcalls. by apply elem_of_cons; left.
Qed.

(** C3, as amended.  The registry is never evicted from, but the store has a
    fourth wrapper, [removeGraphicMap]: after every sequence of calls of the
    store's functions in which no [removeGraphicMap] of the identifier occurs,
    an identifier inserted by [setGraphicMap] is still present, and so is
    every identifier that was present before the sequence. *)
Theorem registry_entry_stays (calls : list Call) (s : Store) id :
  (∀ c, c ∈ calls → removes id c = false) →
  (∀ g, hasGraphicMap (run calls (setGraphicMap id g s)) id = true)
  ∧ (hasGraphicMap s id = true → hasGraphicMap (run calls s) id = true).
Proof.
  intros Hcalls. split.
  - intros g. apply run_keeps_entry; [done|]. apply hasGraphicMap_set_eq.
  - by apply run_keeps_entry.
Qed.

(** C5.  After [setGraphicMap(id, g)], [getGraphicMap(id)] is [g] and
    [hasGraphicMap(id)] is true; after [removeGraphicMap(id)],
    [hasGraphicMap(id)] is false and [getGraphicMap(id)] is [undefined]; and
    neither call changes what the two queries answer for another
    identifier. *)
Theorem registry_set_get_has_remove (s : Store) id g :
  getGraphicMap (setGraphicMap id g s) id = g
  ∧ hasGraphicMap (setGraphicMap id g s) id = true
  ∧ hasGraphicMap (removeGraphicMap id s) id = false
  ∧ getGraphicMap (removeGraphicMap id s) id = undefined
  ∧ ∀ id', id' ≠ id →
      getGraphicMap (setGraphicMap id g s) id' = getGraphicMap s id'
      ∧ hasGraphicMap (setGraphicMap id g s) id' = hasGraphicMap s id'
      ∧ getGraphicMap (removeGraphicMap id s) id' = getGraphicMap s id'
      ∧ hasGraphicMap (removeGraphicMap id s) id' = hasGraphicMap s id'.
Proof.
  repeat split.
  - unfold getGraphicMap. simpl. by rewrite lookup_insert_eq.
  - apply hasGraphicMap_set_eq.
  - unfold hasGraphicMap. simpl. rewrite lookup_delete_eq.
    apply bool_decide_eq_false. by intros [? ?].
  - unfold getGraphicMap. simpl. by rewrite lookup_delete_eq.
  - unfold getGraphicMap. by rewrite graphicMap_set_ne.
  - unfold hasGraphicMap. by rewrite graphicMap_set_ne.
  - unfold getGraphicMap. by rewrite graphicMap_remove_ne.
  - unfold hasGraphicMap. by rewrite graphicMap_remove_ne.
Qed.

End Registry.

Lemma registry_entry_stays_witness :
  hasGraphicMap
    (run [SetMap (Some viewer); SetGraphicMap "b" null; RemoveGraphicMap "b";
          ClearAllDroneTrails; ResetLayer]
       (setGraphicMap "a" (ref 7%nat) (@initialStore Reference.engine))) "a"
  = true.
Proof.
  apply (registry_entry_stays (H := Reference.engine)
           [SetMap (Some viewer); SetGraphicMap "b" null; RemoveGraphicMap "b";
            ClearAllDroneTrails; ResetLayer] initialStore "a").
  intros c Hc. repeat (apply elem_of_cons in Hc as [->|Hc]; [reflexivity|]).
  by apply elem_of_nil in Hc.
Defined.

(** C3 as stated fails: [removeGraphicMap] is an operation of the store, and
    after it the identifier is gone. *)
Lemma registry_entry_can_be_removed :
  ¬ (∀ (calls : list (@Call Reference.engine)) (s : Store) id g,
       hasGraphicMap (run calls (setGraphicMap id g s)) id = true).
Proof.
  intros Hstays.
  specialize (Hstays [RemoveGraphicMap "a"] initialStore "a" (ref 0%nat)).
  vm_compute in Hstays. discriminate.
Qed.

Lemma registry_set_get_has_remove_witness :
  getGraphicMap (setGraphicMap "a" (ref 1%nat) (@initialStore Reference.engine)) "b"
  = getGraphicMap (@initialStore Reference.engine) "b".
Proof.
  apply (registry_set_get_has_remove (H := Reference.engine) initialStore "a" (ref 1%nat)).
  discriminate.
Defined.

End MapStoreSpec.

(** ** [VoxelGrid] *)
Module GridTypesSpec.
Import Cesium GridTypes.

(** A loop whose body appends to the accumulator builds the concatenation of
    what each round appends. *)
Lemma forUpTo_append {A : Type} (n : Z) (body : Z → list A → list A)
    (g : Z → list A) (acc : list A) :
  (∀ i a, body i a = a ++ g i) →
  forUpTo n body acc = acc ++ mjoin (g <$> seqZ 0 n).
Proof.
  intros Hbody. unfold forUpTo. generalize (seqZ 0 n) as l.
  intros l. revert acc. induction l as [|i l IH]; intros acc; csimpl.
  - by rewrite app_nil_r.
  - by rewrite IH, Hbody, <-app_assoc.
Qed.

Lemma join_singletons {A B : Type} (f : A → B) (l : list A) :
  mjoin ((λ x, [f x]) <$> l) = f <$> l.
Proof. induction l as [|x l IH]; csimpl; [done|]. by rewrite IH. Qed.

Section VoxelGrid.
Context `{Objects}.

Lemma voxelInstances_slabs (o : VoxelGridOptions) :
  voxelInstances o = mjoin (slab o <$> seqZ 0 (countX o)).
Proof.
  unfold voxelInstances.
  rewrite (forUpTo_append _ _ (slab o)); [done|].
  intros x acc.
  rewrite (forUpTo_append _ _ (column o x)); [done|].
  intros y acc'.
  rewrite (forUpTo_append _ _ (λ z, [cell o x y z])); [|done].
  by rewrite join_singletons.
Qed.

Lemma length_column o x y : length (column o x y) = Z.to_nat (countZ o).
Proof. unfold column. by rewrite length_fmap, length_seqZ. Qed.

Lemma length_slab o x :
  length (slab o x) = (Z.to_nat (countY o) * Z.to_nat (countZ o))%nat.
Proof.
  unfold slab. rewrite length_join, <-list_fmap_compose.
  rewrite (sum_list_fmap_same (Z.to_nat (countZ o))).
  - by rewrite length_seqZ.
  - apply Forall_forall. intros y _. apply length_column.
Qed.

Lemma length_voxelInstances o :
  length (voxelInstances o)
  = (Z.to_nat (countX o) * (Z.to_nat (countY o) * Z.to_nat (countZ o)))%nat.
Proof.
  rewrite voxelInstances_slabs, length_join, <-list_fmap_compose.
  rewrite (sum_list_fmap_same (Z.to_nat (countY o) * Z.to_nat (countZ o))).
  - by rewrite length_seqZ.
  - apply Forall_forall. intros x _. apply length_slab.
Qed.



Lemma removeFirst_subset p q ps : q ∈ removeFirst p ps → q ∈ ps.
Proof.
  induction ps as [|q' ps IH]; simpl; [done|].
  destruct (decide (q' = p)); rewrite !elem_of_cons; [by right|].
  intros [?|?]; [by left|right; by apply IH].
Qed.

Lemma filter_removeFirst (P : handle → Prop) `{!∀ x, Decision (P x)} p ps :
  P p → filter P (removeFirst p ps) = removeFirst p (filter P ps).
Proof.
  intros Hp. induction ps as [|q ps IH]; simpl; [done|].
  destruct (decide (q = p)) as [->|Hne].
  - rewrite filter_cons_True by done. simpl. by rewrite decide_True.
  - destruct (decide (P q)).
    + rewrite !filter_cons_True by done. simpl. by rewrite decide_False, IH.
    + by rewrite !filter_cons_False.
Qed.

Lemma filter_extend_fresh (created : list handle) p (ps : list handle) :
  p ∉ ps →
  filter (λ q, q ∈ created ++ [p]) ps = filter (λ q, q ∈ created) ps.
Proof.
  induction ps as [|q ps IH]; [done|].
  intros [Hne Hps]%not_elem_of_cons.
  destruct (decide (q ∈ created)) as [Hin|Hout].
  - rewrite !filter_cons_True; [by rewrite IH|done|]. apply elem_of_app; by left.
  - rewrite !filter_cons_False; [by apply IH|done|].
    intros [?|?%list_elem_of_singleton]%elem_of_app; done.
Qed.

Lemma clear_oneAtMost g r created :
  oneAtMost (g, r, created) →
  oneAtMost ((clear g r).1, (clear g r).2, created)
  ∧ primitive (clear g r).1 = None.
Proof.
  unfold oneAtMost, clear, live, allocatedPrimitives. simpl. intros [Hfresh Hlive].
  destruct (primitive g) as [p|] eqn:Hp; simpl; [|by rewrite Hp].
  split; [split|done].
  - intros q Hq. by apply Hfresh, (removeFirst_subset p).
  - assert (p ∈ created) as Hin.
    { assert (p ∈ filter (λ p, p ∈ created) (primitives r)) as Hmem
        by (rewrite Hlive; apply list_elem_of_singleton; done).
      by apply list_elem_of_filter in Hmem as [? _]. }
    rewrite filter_removeFirst by done. rewrite Hlive. simpl.
    by rewrite decide_True.
Qed.

Lemma exec_oneAtMost c st : oneAtMost st → oneAtMost (exec c st).
Proof.
  destruct st as [[g r] created]. intros Hinv.
  destruct (clear_oneAtMost _ _ _ Hinv) as [[Hfresh Hlive] Hnone].
  destruct c as [o|]; simpl.
  - unfold create. destruct (clear g r) as [g1 r1] eqn:Hclear. simpl in *.
    unfold oneAtMost, live, allocatedPrimitives in *. simpl in *. split.
    + intros q [Hq| ->%list_elem_of_singleton]%elem_of_app; [|lia].
      specialize (Hfresh q Hq). lia.
    + rewrite filter_app. rewrite filter_cons_True, filter_nil
        by (apply elem_of_app; right; by apply list_elem_of_singleton).
      rewrite Hnone in Hlive. simpl in Hlive.
      rewrite filter_extend_fresh, Hlive; [done|].
      intros Hin. specialize (Hfresh _ Hin). lia.
  - by destruct (clear g r).
Qed.

Lemma run_oneAtMost calls r : allocatedPrimitives r → oneAtMost (run calls r).
Proof.
  intros Hfresh. unfold run.
  assert (oneAtMost (newVoxelGrid, r, [])) as Hinit.
  { split; [done|]. unfold live. simpl. 
    induction (primitives r) as [|p ps IH]; [done|].
    rewrite filter_cons_False; [done|]. by intros ?%elem_of_nil. }
  revert Hinit. generalize (newVoxelGrid, r, @nil handle).
  induction calls as [|c calls IH]; intros st Hst; [done|].
  simpl. apply IH. by apply exec_oneAtMost.
Qed.

(** C9.  After every sequence of [create] and [clear] calls on a new
    instance, the primitives of the scene that the instance created are
    exactly the one it refers to, or none when its reference is null: never
    more than one.  [clear] leaves the reference null and a second [clear]
    changes nothing. *)
Theorem voxel_grid_owns_at_most_one_primitive (calls : list Call) (r : Runtime) :
  allocated r →
  live (run calls r).2 (run calls r).1.2
    = option_list (primitive (run calls r).1.1)
  ∧ (length (live (run calls r).2 (run calls r).1.2) ≤ 1)%nat
  ∧ ∀ g' r', primitive (clear g' r').1 = None
             ∧ clear (clear g' r').1 (clear g' r').2 = clear g' r'.
Proof.
  intros [_ Hfresh].
  destruct (run_oneAtMost calls r Hfresh) as [_ Hlive].
  split; [done|]. split.
  - rewrite Hlive. destruct (primitive _); simpl; lia.
  - intros g' r'. unfold clear.
    destruct (primitive g') as [p|] eqn:Hp; simpl; [done|]. by rewrite Hp.
Qed.

End VoxelGrid.


Lemma voxel_grid_owns_at_most_one_primitive_witness :
  live
    (run [Create Reference.sampleVoxels; Create Reference.sampleVoxels; Clear;
          Create Reference.sampleVoxels] Reference.emptyRuntime).2
    (run [Create Reference.sampleVoxels; Create Reference.sampleVoxels; Clear;
          Create Reference.sampleVoxels] Reference.emptyRuntime).1.2
  = option_list
      (primitive
         (run [Create Reference.sampleVoxels; Create Reference.sampleVoxels;
               Clear; Create Reference.sampleVoxels] Reference.emptyRuntime).1.1).
Proof.
  apply (voxel_grid_owns_at_most_one_primitive
           (H := Reference.engine) (H0 := Reference.objects)).
  split; intros x Hx; simpl in Hx; by apply elem_of_nil in Hx.
Defined.

End GridTypesSpec.

(** ** The guards of the helpers *)
Module HelpersSpec.
Import Cesium MapStore App Helpers.

Section Guards.
Context `{Objects}.
Variable setDroneTrail : string → Cartesian3 → World → World.

Lemma log_sameButConsole l m (w : World) : sameButConsole w (log l m w).
Proof. by repeat split. Qed.

(** C4, as amended.  When the store holds a map instance, a call of
    [setPointEntityByImg], [setPointByGlb] or [setDronePointByGlb] with an
    identifier that the registry holds returns the object registered under
    it and changes nothing but the console: no object is created, the
    viewer's collections and the registry are as before. *)
Theorem existing_point_is_returned (w : World) :
  getMap (mapStore w) ≠ None →
  (∀ o, hasGraphicMap (mapStore w) (pt_id o) = true →
     (SetPoint.setPointEntityByImg o w).1 = getGraphicMap (mapStore w) (pt_id o)
     ∧ sameButConsole w (SetPoint.setPointEntityByImg o w).2)
  ∧ (∀ o, hasGraphicMap (mapStore w) (glb_id o) = true →
     (SetPoint.setPointByGlb o w).1 = getGraphicMap (mapStore w) (glb_id o)
     ∧ sameButConsole w (SetPoint.setPointByGlb o w).2)
  ∧ (∀ o, hasGraphicMap (mapStore w) (dr_id o) = true →
     (SetPoint.setDronePointByGlb setDroneTrail o w).1
     = returned (getGraphicMap (mapStore w) (dr_id o))
     ∧ sameButConsole w (SetPoint.setDronePointByGlb setDroneTrail o w).2).
Proof.
  intros Hmap. destruct (getMap (mapStore w)) as [m|] eqn:Hm; [|done].
  repeat split;
    unfold SetPoint.setPointEntityByImg, SetPoint.setPointByGlb,
      SetPoint.setDronePointByGlb; rewrite Hm;
    match goal with Hhas : hasGraphicMap _ _ = true |- _ => rewrite Hhas end;
    done.
Qed.

(** C6.  When the store holds no map instance, every creation or update
    helper of setPoint.ts, geometry.ts and grid.ts returns at once, [null]
    from a helper that creates, [false] from one that updates, nothing from a
    grid helper, after one console message; the registry, the trails, the
    viewer's collections, the objects and the grid state are as before. *)
Theorem helpers_return_without_map (fuel : nat) (op : Operation) (w : World) :
  getMap (mapStore w) = None →
  call setDroneTrail fuel op w
  = Some (returned (resultWithoutMap op),
          log (levelWithoutMap op) MapMissing w)
  ∧ sameButConsole w (log (levelWithoutMap op) MapMissing w)
  ∧ console (runtime (log (levelWithoutMap op) MapMissing w))
    = console (runtime w) ++ [(levelWithoutMap op, MapMissing)].
Proof.
  intros Hnone. split; [|split; [apply log_sameButConsole|done]].
  destruct op; simpl;
    unfold valueOf, flagOf,
      SetPoint.setPointEntityByImg, SetPoint.setPointPrimitiveByImg,
      SetPoint.setBatchPointsByImg, SetPoint.setPointByGlb,
      SetPoint.setDronePointByGlb,
      Geometry.conicalWave, Geometry.rectangularPyramidWave,
      Geometry.updateConeLengthOrPosition,
      Geometry.updateRectangularPyramidLengthOrPosition,
      Geometry.updateConePose, Geometry.updateRectangularPyramidWavePose,
      Grid.createGridEffect, Grid.clearAirGrid, Grid.create3DVoxelGrid;
    by rewrite Hnone.
Qed.

End Guards.

#[local] Existing Instance Reference.engine.
#[local] Existing Instance Reference.objects.

Lemma existing_point_is_returned_witness :
  (SetPoint.setPointEntityByImg Reference.samplePoint Reference.worldWithPoint).1
  = ref 0%nat.
Proof.
  apply (existing_point_is_returned (H := Reference.engine)
           (H0 := Reference.objects) Reference.noTrail Reference.worldWithPoint);
    [discriminate|reflexivity].
Defined.

(** C4 as stated fails: without a map instance the helper returns [null],
    also for an identifier that the registry holds. *)
Lemma existing_point_is_not_returned_without_map :
  ¬ (∀ (w : @World Reference.engine Reference.objects) o,
       hasGraphicMap (mapStore w) (pt_id o) = true →
       (SetPoint.setPointEntityByImg o w).1
       = getGraphicMap (mapStore w) (pt_id o)).
Proof.
  intros Hreturned.
  specialize (Hreturned Reference.worldWithoutMap Reference.samplePoint eq_refl).
  vm_compute in Hreturned. discriminate.
Qed.

Lemma helpers_return_without_map_witness :
  call Reference.noTrail 0 (UpdateConePose Reference.samplePose)
    Reference.worldWithoutMap
  = Some (returned (flag false), log LogError MapMissing Reference.worldWithoutMap).
Proof.
  apply (helpers_return_without_map (H := Reference.engine)
           (H0 := Reference.objects) Reference.noTrail 0
           (UpdateConePose Reference.samplePose) Reference.worldWithoutMap).
  reflexivity.
Defined.

End HelpersSpec.

(** ** The plane grid: create, then clear *)
Module GridSpec.
Import Cesium MapStore App Grid.

Section Filter.
Context {A : Type} (P Q : A → Prop) `{!∀ x, Decision (P x), !∀ x, Decision (Q x)}.

Lemma filter_agree (l : list A) :
  (∀ x, x ∈ l → P x ↔ Q x) → filter P l = filter Q l.
Proof.
  induction l as [|x l IH]; intros Hagree; [done|].
  assert (filter P l = filter Q l) as Hrest
    by (apply IH; intros y Hy; apply Hagree; by right).
  destruct (decide (P x)) as [Hx|Hx].
  - rewrite !filter_cons_True, Hrest; [done| |done]. apply Hagree; [by left|done].
  - rewrite !filter_cons_False, Hrest; [done| |done].
    intros HQ. apply Hx, Hagree; [by left|done].
Qed.

Lemma filter_all (l : list A) : (∀ x, x ∈ l → P x) → filter P l = l.
Proof.
  induction l as [|x l IH]; intros Hall; [done|].
  rewrite filter_cons_True by (apply Hall; by left).
  f_equal. apply IH. intros y Hy. apply Hall. by right.
Qed.

Lemma filter_none (l : list A) : (∀ x, x ∈ l → ¬ P x) → filter P l = [].
Proof.
  induction l as [|x l IH]; intros Hnone; [done|].
  rewrite filter_cons_False by (apply Hnone; by left).
  apply IH. intros y Hy. apply Hnone. by right.
Qed.

End Filter.

Section Grid.
Context `{Objects}.

Lemma extendedBy_refl (w : World) : extendedBy [] w w.
Proof.
  unfold extendedBy. rewrite !app_nil_r. repeat split; try done.
  by intros h ?%elem_of_nil.
Qed.

Lemma extendedBy_trans hs hs' (w w1 w2 : World) :
  extendedBy hs w w1 → extendedBy hs' w1 w2 → extendedBy (hs ++ hs') w w2.
Proof.
  intros (Hs & Hg & He & Hn & Hhs) (Hs' & Hg' & He' & Hn' & Hhs').
  unfold extendedBy. rewrite Hs', Hs, Hg', Hg, He', He, fmap_app, !app_assoc.
  repeat split; try done; [lia|].
  intros h [Hh|Hh]%elem_of_app; [by apply Hhs|].
  specialize (Hhs' h Hh). lia.
Qed.

Lemma addLine_extendedBy req (w : World) :
  extendedBy [nextHandle (runtime w)] w (addLine req w).
Proof.
  unfold extendedBy, addLine, addEntity. simpl. repeat split; try done; [lia|].
  intros h ->%list_elem_of_singleton. done.
Qed.

Lemma forLe_extendedBy (req : number → request) fuel i to step (w w1 : World) :
  forLe fuel i to step (λ x, addLine (req x)) w = Some w1 →
  ∃ hs, extendedBy hs w w1.
Proof.
  revert i w. induction fuel as [|fuel IH]; intros i w; simpl.
  - destruct (numLe i to); [done|]. intros [= <-]. eexists. apply extendedBy_refl.
  - destruct (numLe i to); [|intros [= <-]; eexists; apply extendedBy_refl].
    intros [hs Hhs]%IH. eexists.
    eapply extendedBy_trans; [apply addLine_extendedBy|done].
Qed.

Lemma createGridEffect_extendedBy fuel o (w w1 : World) :
  getMap (mapStore w) ≠ None →
  createGridEffect fuel o w = Some w1 → ∃ hs, extendedBy hs w w1.
Proof.
  intros Hmap. unfold createGridEffect.
  destruct (getMap (mapStore w)); [|done].
  destruct (forLe fuel (south o) _ _ _ w) as [w'|] eqn:Hlat; [|done]. simpl.
  intros Hlon.
  apply forLe_extendedBy in Hlat as [hs Hhs].
  apply forLe_extendedBy in Hlon as [hs' Hhs'].
  eexists. by eapply extendedBy_trans.
Qed.

Lemma createGridEffects_extendedBy fuel calls (w w1 : World) :
  getMap (mapStore w) ≠ None →
  createGridEffects fuel calls w = Some w1 → ∃ hs, extendedBy hs w w1.
Proof.
  revert w. induction calls as [|o calls IH]; intros w Hmap; simpl.
  - intros [= <-]. eexists. apply extendedBy_refl.
  - destruct (createGridEffect fuel o w) as [w'|] eqn:Hfirst; [|done]. simpl.
    intros Hrest.
    apply createGridEffect_extendedBy in Hfirst as [hs Hhs]; [|done].
    apply IH in Hrest as [hs' Hhs'].
    + eexists. by eapply extendedBy_trans.
    + destruct Hhs as [-> _]. done.
Qed.

(** More fuel does not change what a loop that was left returns. *)
Lemma forLe_more_fuel {S : Type} fuel fuel' i to step (body : number → S → S) s s' :
  forLe fuel i to step body s = Some s' → (fuel ≤ fuel')%nat →
  forLe fuel' i to step body s = Some s'.
Proof.
  revert fuel' i s. induction fuel as [|fuel IH]; intros fuel' i s; simpl.
  - destruct (numLe i to) eqn:Hle; [done|]. intros Hs _.
    destruct fuel'; simpl; by rewrite Hle.
  - destruct (numLe i to) eqn:Hle.
    + intros Hs Hfuel. destruct fuel' as [|fuel']; [lia|]. simpl. rewrite Hle.
      apply IH; [done|lia].
    + intros Hs _. destruct fuel'; simpl; by rewrite Hle.
Qed.

Lemma createGridEffect_more_fuel fuel fuel' o (w w1 : World) :
  createGridEffect fuel o w = Some w1 → (fuel ≤ fuel')%nat →
  createGridEffect fuel' o w = Some w1.
Proof.
  unfold createGridEffect. destruct (getMap (mapStore w)); [|done].
  destruct (forLe fuel (south o) _ _ _ w) as [w'|] eqn:Hlat; [|done]. simpl.
  intros Hlon Hfuel.
  rewrite (forLe_more_fuel _ _ _ _ _ _ _ _ Hlat Hfuel). simpl.
  by apply (forLe_more_fuel fuel).
Qed.

(** The helpers of the plane grid keep the runtime well-formed. *)
Lemma addLine_allocated req (w : World) :
  allocated (runtime w) → allocated (runtime (addLine req w)).
Proof.
  intros [Hentities Hprimitives]. unfold addLine, addEntity. simpl. split.
  - intros e [He| ->%list_elem_of_singleton]%elem_of_app; simpl.
    + destruct (Hentities e He) as [Href Hguid]. split; [lia|].
      intros h Hh. specialize (Hguid h Hh). lia.
    + split; [lia|]. intros h [= <-]. lia.
  - intros q Hq. specialize (Hprimitives q Hq). simpl in *. lia.
Qed.

Lemma forLe_allocated (req : number → request) fuel i to step (w w1 : World) :
  forLe fuel i to step (λ x, addLine (req x)) w = Some w1 →
  allocated (runtime w) → allocated (runtime w1).
Proof.
  revert i w. induction fuel as [|fuel IH]; intros i w; simpl.
  - destruct (numLe i to); [done|]. by intros [= <-].
  - destruct (numLe i to); [|by intros [= <-]].
    intros Hrest Hw. eapply IH; [done|]. by apply addLine_allocated.
Qed.

Lemma createGridEffect_allocated fuel o (w w1 : World) :
  createGridEffect fuel o w = Some w1 →
  allocated (runtime w) → allocated (runtime w1).
Proof.
  unfold createGridEffect. destruct (getMap (mapStore w)).
  - destruct (forLe fuel (south o) _ _ _ w) as [w'|] eqn:Hlat; [|done]. simpl.
    intros Hlon Hw. eapply forLe_allocated; [done|].
    by eapply forLe_allocated.
  - by intros [= <-].
Qed.

Lemma clearAirGrid_allocated (w : World) :
  allocated (runtime w) → allocated (runtime (clearAirGrid w)).
Proof.
  unfold clearAirGrid. destruct (getMap (mapStore w)); [|done]. simpl.
  generalize (gridEntities w). intros hs. revert w.
  induction hs as [|h hs IH]; intros w Hw; [done|].
  simpl.
  specialize (IH (withRuntime (removeEntity (guid h) (runtime w)) w)).
  apply IH. destruct Hw as [Hentities Hprimitives]. split; [|done].
  intros e [_ He]%list_elem_of_filter. by apply Hentities.
Qed.

(** Removing the entities one by one filters the collection. *)
Lemma entities_removed hs (r : Runtime) :
  entities (foldl (λ r e, removeEntity (guid e) r) r hs)
  = filter (λ e, entityId e ∉ guid <$> hs) (entities r).
Proof.
  revert r. induction hs as [|h hs IH]; intros r; simpl.
  - symmetry. apply filter_all. by intros e _ ?%elem_of_nil.
  - rewrite IH. simpl. rewrite list_filter_filter. apply list_filter_iff.
    intros e. rewrite not_elem_of_cons. tauto.
Qed.

Lemma entities_cleared (w : World) :
  getMap (mapStore w) ≠ None →
  entities (runtime (clearAirGrid w))
  = filter (λ e, entityId e ∉ guid <$> gridEntities w) (entities (runtime w)).
Proof.
  intros Hmap. unfold clearAirGrid.
  destruct (getMap (mapStore w)); [|done]. simpl. apply entities_removed.
Qed.

(** C10.  When the store holds a map instance and the [createGridEffect]
    calls have returned, [clearAirGrid] leaves [gridEntities] empty and
    removes from the viewer every entity the calls added: the collection is
    what clearing before the calls would have left, which is the collection
    before the calls when [gridEntities] was empty then. *)
Theorem clear_after_creates (fuel : nat) (calls : list GridOptions) (w w1 : World) :
  getMap (mapStore w) ≠ None →
  allocated (runtime w) →
  createGridEffects fuel calls w = Some w1 →
  gridEntities (clearAirGrid w1) = []
  ∧ entities (runtime (clearAirGrid w1)) = entities (runtime (clearAirGrid w))
  ∧ (gridEntities w = [] →
     entities (runtime (clearAirGrid w1)) = entities (runtime w))
  ∧ (∀ e, e ∈ entities (runtime w1) → e ∉ entities (runtime w) →
          e ∉ entities (runtime (clearAirGrid w1))).
Proof.
  intros Hmap [Halloc _] Hcalls.
  destruct (createGridEffects_extendedBy _ _ _ _ Hmap Hcalls)
    as (hs & Hstore & Hgrid & Hentities & Hnext & Hhs).
  assert (getMap (mapStore w1) ≠ None) as Hmap1 by (by rewrite Hstore).
  assert (entities (runtime (clearAirGrid w1))
          = entities (runtime (clearAirGrid w))) as Hsame.
  { rewrite !entities_cleared by done. rewrite Hgrid, Hentities, filter_app.
    rewrite (filter_none _ (line <$> hs)), app_nil_r.
    - apply filter_agree. intros e He.
      rewrite fmap_app, not_elem_of_app. split; [tauto|]. intros Hold.
      split; [done|]. intros (h & Hid & Hh)%list_elem_of_fmap.
      destruct (Halloc e He) as [_ Hguid].
      specialize (Hguid h Hid). specialize (Hhs h Hh). lia.
    - intros e (h & -> & Hh)%list_elem_of_fmap. simpl. intros Hnot. apply Hnot.
      apply list_elem_of_fmap. exists h. split; [done|].
      apply elem_of_app. by right. }
  split; [|split; [done|split]].
  - unfold clearAirGrid. by destruct (getMap (mapStore w1)).
  - intros Hempty. rewrite Hsame, entities_cleared, Hempty by done.
    apply filter_all. by intros e _ ?%elem_of_nil.
  - intros e He Hnew Hstill.
    rewrite entities_cleared in Hstill by done.
    apply list_elem_of_filter in Hstill as [Hid _].
    rewrite Hentities in He. apply elem_of_app in He as [?|Hline]; [done|].
    apply list_elem_of_fmap in Hline as (h & -> & Hh). apply Hid. simpl.
    apply list_elem_of_fmap. exists h. split; [done|].
    rewrite Hgrid. apply elem_of_app. by right.
Qed.

End Grid.

#[local] Existing Instance Reference.engine.
#[local] Existing Instance Reference.objects.

(** With the reference engine's numbers a loop with a positive step is left:
    fuel beyond the distance to the bound is enough. *)
Lemma forLe_returns {S : Type} (fuel : nat) (i to step : Z)
    (body : Z → S → S) (s : S) :
  0 < step → (Z.to_nat (to - i + 1) ≤ fuel)%nat →
  is_Some (forLe (H := Reference.engine) fuel i to step body s).
Proof.
  intros Hstep. revert i s. induction fuel as [|fuel IH]; intros i s Hfuel; simpl.
  - destruct (i <=? to) eqn:Hle; [|eauto]. apply Z.leb_le in Hle. lia.
  - destruct (i <=? to) eqn:Hle; [|eauto]. apply Z.leb_le in Hle.
    apply IH. lia.
Qed.

(** [createGridEffect] returns whenever the step is positive. *)
Lemma createGridEffect_returns (o : GridOptions) (w : World) :
  0 < step o → ∃ fuel, is_Some (createGridEffect fuel o w).
Proof.
  intros Hstep.
  exists (Z.to_nat (north o - south o + 1) `max` Z.to_nat (east o - west o + 1))%nat.
  unfold createGridEffect. destruct (getMap (mapStore w)); [|eauto].
  edestruct (forLe_returns (S := World)) as [w' ->]; [done| |].
  { apply Nat.le_max_l. }
  simpl. apply forLe_returns; [done|]. apply Nat.le_max_r.
Qed.

Lemma clear_after_creates_witness :
  gridEntities (clearAirGrid Reference.gridWorld) = [].
Proof.
  refine (proj1 (clear_after_creates
                   (H := Reference.engine) (H0 := Reference.objects)
                   3 [Reference.sampleGrid] Reference.loadedWorld
                   Reference.gridWorld _ _ _)).
  - discriminate.
  - split; intros x Hx; simpl in Hx; by apply elem_of_nil in Hx.
  - reflexivity.
Defined.

End GridSpec.

(** ** The trail of a drone *)
Module SetPathSpec.
Import SetPath.

Section Trail.
Context {Position : Type}.
Variable farther : Position → Position → bool.

(** C2.  For a trail with a last point: the sample is appended exactly when
    it is farther than the threshold from that point; afterwards the trail
    holds, in their order, the points that are not older than the retention
    window; and with a negative retention every point is kept. *)
Theorem trail_maintenance (retention now : Z) (p : Position)
    (trail : list TrailPoint) (l : TrailPoint) :
  last trail = Some l →
  (farther (position l) p = true →
     appendSample farther now p trail
     = trail ++ [{| position := p; time := now |}])
  ∧ (farther (position l) p = false → appendSample farther now p trail = trail)
  ∧ (∀ pt, pt ∈ updateTrail farther retention now p trail
           ↔ pt ∈ appendSample farther now p trail
             ∧ (retention < 0 ∨ now - time pt ≤ retention))
  ∧ updateTrail farther retention now p trail
      `sublist_of` appendSample farther now p trail
  ∧ (retention < 0 →
     updateTrail farther retention now p trail = appendSample farther now p trail).
Proof.
  intros Hlast. unfold updateTrail, dropExpired, appendSample. rewrite Hlast.
  split; [by intros ->|]. split; [by intros ->|].
  split; [|split].
  - intros pt. destruct (decide (retention < 0)) as [Hneg|Hpos].
    + rewrite bool_decide_true by done. split; [|tauto].
      intros ?. split; [done|by left].
    + rewrite bool_decide_false by done. rewrite list_elem_of_filter.
      unfold expired. rewrite bool_decide_eq_false.
      split; [intros [? ?]; split; [done|right; lia]|].
      intros [? [?|?]]; split; [lia|done|lia|done].
  - destruct (bool_decide (retention < 0)); [done|]. apply sublist_filter.
  - intros Hneg. by rewrite bool_decide_true.
Qed.

End Trail.

Lemma trail_maintenance_witness :
  updateTrail Reference.fartherThanOne 30 100 5
    [{| position := 0; time := 60 |}; {| position := 3; time := 90 |}]
  `sublist_of`
  appendSample Reference.fartherThanOne 100 5
    [{| position := 0; time := 60 |}; {| position := 3; time := 90 |}].
Proof.
  apply (trail_maintenance Reference.fartherThanOne 30 100 5
           [{| position := 0; time := 60 |}; {| position := 3; time := 90 |}]
           {| position := 3; time := 90 |}).
  reflexivity.
Defined.

End SetPathSpec.

(** ** [merge], key by key *)
Module MergeSpec.
Import ObjectUtils ObjectUtilsSpec.

#[local] Arguments mergeProperty : simpl never.
#[local] Arguments mergeItem : simpl never.

Lemma NoDup_strings (l : list string) :
  bool_decide (NoDup l) = true → NoDup l.
Proof. apply bool_decide_eq_true. Qed.













Lemma mergeItem_at self targetArr index item :
  isObject targetArr = true → isIndex index = true →
  get (mergeItem self targetArr (index, item)) index
  = if isUndefined (get targetArr index) then item
    else self (get targetArr index) item.
Proof.
  intros Hobj Hindex. unfold mergeItem. rewrite Hindex.
  destruct (isUndefined (get targetArr index)); by rewrite get_set_eq.
Qed.

Lemma isObject_mergeItem self targetArr entry :
  isObject (mergeItem self targetArr entry) = isObject targetArr.
Proof.
  destruct entry as [index item]. unfold mergeItem.
  repeat case_match; try done; by rewrite isObject_set.
Qed.

Lemma foldl_mergeItem_at self entries targetArr index item :
  NoDup entries.*1 →
  lookupProp index entries = Some item →
  isObject targetArr = true → isIndex index = true →
  get (foldl (mergeItem self) targetArr entries) index
  = if isUndefined (get targetArr index) then item
    else self (get targetArr index) item.
Proof.
  revert targetArr.
  induction entries as [|[k v] rest IH]; intros t Hnodup Hlookup Hobj Hindex; [done|].
  csimpl in *. apply NoDup_cons in Hnodup as [Hfresh Hnodup].
  destruct (decide (k = index)) as [->|Hne].
  - injection Hlookup as ->.
    rewrite foldl_mergeItem_frame by done. by apply mergeItem_at.
  - rewrite (IH (mergeItem self t (k, v)));
      [|done|done|by rewrite isObject_mergeItem|done].
    by rewrite mergeItem_frame by (simpl; congruence).
Qed.

(** X5.  With deep on, an array source is merged index by index: an element
    of the source goes to its index when the target has nothing defined
    there, and is merged with the target's element otherwise; so an element
    of the source that is no object never replaces a defined element of the
    target, also when overwrite is on. *)
Theorem merge_array_elements overwrite target sourceProps index item :
  NoDup sourceProps.*1 →
  lookupProp index sourceProps = Some item →
  isIndex index = true →
  get (mergeWith true overwrite target (VObj true sourceProps)) index
  = (if isUndefined (get target index) then item
     else mergeWith true overwrite (get target index) item)
  ∧ (isObject item = false → isUndefined (get target index) = false →
     get (mergeWith true overwrite target (VObj true sourceProps)) index
     = get target index).
Proof.
  intros Hnodup Hlookup Hindex.
  assert (get (mergeWith true overwrite target (VObj true sourceProps)) index
          = if isUndefined (get target index) then item
            else mergeWith true overwrite (get target index) item) as Hat.
  { simpl. destruct (isObject target) eqn:Hobj.
    - by apply foldl_mergeItem_at.
    - rewrite (foldl_mergeItem_at _ _ _ _ item) by done. by destruct target. }
  split; [done|]. intros Hitem Hdef. rewrite Hat, Hdef. by destruct item.
Qed.

Lemma merge_array_elements_witness :
  get (mergeWith true true (arrayOf [VNum 1; VNum 2])
         (VObj true [("0", VNum 9); ("1", VNum 8); ("2", VNum 7)])) "0"
  = VNum 1.
Proof.
  refine (proj2 (merge_array_elements true (arrayOf [VNum 1; VNum 2])
                   [("0", VNum 9); ("1", VNum 8); ("2", VNum 7)] "0" (VNum 9)
                   _ _ _) _ _).
  - by apply NoDup_strings.
  - reflexivity.
  - reflexivity.
  - reflexivity.
  - reflexivity.
Defined.

End MergeSpec.

(** ** The map options of the view *)
Module CesiumMapViewSpec.
Import ObjectUtils ObjectUtilsSpec MergeSpec CesiumMapView.

Lemma mergeWith_other_key deep overwrite target sourceProps key :
  key ∉ sourceProps.*1 →
  get (mergeWith deep overwrite target (VObj false sourceProps)) key
  = get target key.
Proof.
  intros Hnot. simpl. rewrite foldl_mergeProperty_frame by done.
  by destruct target.
Qed.

(** X6.  When the options file has a scene with a centre, the options of
    the map view replace the centre's latitude, longitude and altitude and
    nothing else: every other key of the centre, of the scene and of the
    file's options has the file's value. *)
Theorem view_options_override_center (fileOptions lat lng alt : value) :
  isObject (get fileOptions "scene") = true →
  isObject (get (get fileOptions "scene") "center") = true →
  isPlainObject lat = false → isPlainObject lng = false →
  isPlainObject alt = false →
  let center :=
    get (get (mapOptionsOf fileOptions (viewOptions lat lng alt)) "scene") "center" in
  get center "lat" = lat ∧ get center "lng" = lng ∧ get center "alt" = alt
  ∧ (∀ key, key ∉ ["lat"; "lng"; "alt"] →
       get center key = get (get (get fileOptions "scene") "center") key)
  ∧ (∀ key, key ≠ "center" →
       get (get (mapOptionsOf fileOptions (viewOptions lat lng alt)) "scene") key
       = get (get fileOptions "scene") key)
  ∧ (∀ key, key ≠ "scene" →
       get (mapOptionsOf fileOptions (viewOptions lat lng alt)) key
       = get fileOptions key).
Proof.
  intros Hscene Hcenter Hlat Hlng Halt.
  assert (isTruthy fileOptions = true) as Hfile by (by destruct fileOptions).
  unfold mapOptionsOf. rewrite Hfile.
  change (isTruthy (viewOptions lat lng alt)) with true. cbv iota.
  change (merge fileOptions (viewOptions lat lng alt) defaultOptions)
    with (mergeWith true true fileOptions
            (VObj false [("scene", VObj false [("center",
               VObj false [("lat", lat); ("lng", lng); ("alt", alt)])])])).
  assert (get (mergeWith true true fileOptions
                 (VObj false [("scene", VObj false [("center",
                    VObj false [("lat", lat); ("lng", lng); ("alt", alt)])])]))
              "scene"
          = mergeWith true true (get fileOptions "scene")
              (VObj false [("center",
                 VObj false [("lat", lat); ("lng", lng); ("alt", alt)])])) as Hs.
  { rewrite (mergeWith_at _ _ _ _ _ (VObj false [("center",
                 VObj false [("lat", lat); ("lng", lng); ("alt", alt)])]));
      [|by apply NoDup_strings|done].
    unfold mergedValue. cbn [isPlainObject negb andb]. by rewrite Hscene. }
  assert (get (mergeWith true true (get fileOptions "scene")
                 (VObj false [("center",
                    VObj false [("lat", lat); ("lng", lng); ("alt", alt)])]))
              "center"
          = mergeWith true true (get (get fileOptions "scene") "center")
              (VObj false [("lat", lat); ("lng", lng); ("alt", alt)])) as Hc.
  { rewrite (mergeWith_at _ _ _ _ _
               (VObj false [("lat", lat); ("lng", lng); ("alt", alt)]));
      [|by apply NoDup_strings|done].
    unfold mergedValue. cbn [isPlainObject negb andb]. by rewrite Hcenter. }
  assert (∀ key v,
            lookupProp key [("lat", lat); ("lng", lng); ("alt", alt)] = Some v →
            isPlainObject v = false →
            get (mergeWith true true (get (get fileOptions "scene") "center")
                   (VObj false [("lat", lat); ("lng", lng); ("alt", alt)])) key
            = v) as Hleaf.
  { intros key v Hlookup Hv.
    rewrite (mergeWith_at _ _ _ _ _ v); [|by apply NoDup_strings|done].
    unfold mergedValue. by rewrite Hv. }
  cbv zeta. rewrite Hs, Hc. repeat split.
  - by apply Hleaf.
  - by apply Hleaf.
  - by apply Hleaf.
  - intros key Hkey. by apply mergeWith_other_key.
  - intros key Hkey. apply mergeWith_other_key.
    by intros ->%list_elem_of_singleton.
  - intros key Hkey. apply mergeWith_other_key.
    by intros ->%list_elem_of_singleton.
Qed.

Lemma view_options_override_center_witness :
  get (get (get (mapOptionsOf Reference.sampleFileOptions
                   (viewOptions (VNum 31726288) (VNum 117229619) (VNum 5000)))
              "scene") "center") "lat"
  = VNum 31726288.
Proof.
  refine (proj1 (view_options_override_center Reference.sampleFileOptions
                   (VNum 31726288) (VNum 117229619) (VNum 5000) _ _ _ _ _));
    reflexivity.
Defined.

Lemma isObject_foldl_mergeProperty self deep overwrite entries targetObj :
  isObject (foldl (mergeProperty self deep overwrite) targetObj entries)
  = isObject targetObj.
Proof.
  revert targetObj. induction entries as [|entry rest IH]; intros t; [done|].
  simpl. by rewrite IH, isObject_mergeProperty.
Qed.

Lemma isObject_mergeWith deep overwrite target sourceProps :
  isObject (mergeWith deep overwrite target (VObj false sourceProps)) = true.
Proof.
  simpl. rewrite isObject_foldl_mergeProperty. by destruct (isObject target) eqn:Hobj.
Qed.

Lemma nullish_object v : isObject v = true → nullish v = false.
Proof. by destruct v. Qed.

(** The scene of the merged options. *)
Lemma merged_scene (fileOptions lat lng alt : value) :
  get (mergeWith true true fileOptions (viewOptions lat lng alt)) "scene"
  = if isObject (get fileOptions "scene")
    then mergeWith true true (get fileOptions "scene")
           (VObj false [("center",
              VObj false [("lat", lat); ("lng", lng); ("alt", alt)])])
    else VObj false [].
Proof.
  unfold viewOptions, objectOf.
  rewrite (mergeWith_at _ _ _ _ _ (VObj false [("center",
             VObj false [("lat", lat); ("lng", lng); ("alt", alt)])]));
    [|by apply NoDup_strings|done].
  unfold mergedValue. by cbn [isPlainObject negb andb].
Qed.

Lemma merged_other (fileOptions lat lng alt : value) key :
  key ≠ "scene" →
  get (mergeWith true true fileOptions (viewOptions lat lng alt)) key
  = get fileOptions key.
Proof.
  intros Hkey. unfold viewOptions, objectOf. apply mergeWith_other_key.
  by intros ->%list_elem_of_singleton.
Qed.

Lemma merged_center (scene lat lng alt : value) :
  isObject
    (get (mergeWith true true scene
            (VObj false [("center",
               VObj false [("lat", lat); ("lng", lng); ("alt", alt)])]))
       "center") = true.
Proof.
  rewrite (mergeWith_at _ _ _ _ _
             (VObj false [("lat", lat); ("lng", lng); ("alt", alt)]));
    [|by apply NoDup_strings|done].
  unfold mergedValue. cbn [isPlainObject negb andb].
  destruct (isObject (get scene "center")); [|done]. apply isObject_mergeWith.
Qed.

(** X23.  With the options of the map view, the member reads of
    [initCesium] ([mapOptions.control.x], [mapOptions.terrain.x],
    [mapOptions.scene.center.x], [mapOptions.scene.globe.x]) go through
    exactly when the options file is an object that brings the controls, the
    terrain and a scene object with its globe; the view's own options never
    suffice.  So [initCesium] gets to its onload event with such a file
    only.  When the file has no scene object, the scene of the merged
    options is empty: the centre that the view passed is lost. *)
Theorem onload_needs_the_file_options (engineReturns : value → bool)
    (fileOptions lat lng alt : value) :
  let mapOptions := mapOptionsOf fileOptions (viewOptions lat lng alt) in
  (optionsReadable mapOptions = true
   ↔ isObject fileOptions = true
     ∧ nullish (get fileOptions "control") = false
     ∧ nullish (get fileOptions "terrain") = false
     ∧ isObject (get fileOptions "scene") = true
     ∧ nullish (get (get fileOptions "scene") "globe") = false)
  ∧ (emitsOnload engineReturns fileOptions (viewOptions lat lng alt) = true →
     isObject fileOptions = true ∧ isObject (get fileOptions "scene") = true)
  ∧ (isTruthy fileOptions = true → isObject (get fileOptions "scene") = false →
     get mapOptions "scene" = objectOf []).
Proof.
  cbv zeta.
  assert (isTruthy fileOptions = true →
          mapOptionsOf fileOptions (viewOptions lat lng alt)
          = mergeWith true true fileOptions (viewOptions lat lng alt)) as Hmerged.
  { intros Hfile. unfold mapOptionsOf. by rewrite Hfile. }
  assert (optionsReadable (mapOptionsOf fileOptions (viewOptions lat lng alt)) = true
          ↔ isObject fileOptions = true
            ∧ nullish (get fileOptions "control") = false
            ∧ nullish (get fileOptions "terrain") = false
            ∧ isObject (get fileOptions "scene") = true
            ∧ nullish (get (get fileOptions "scene") "globe") = false) as Hread.
  { destruct (isTruthy fileOptions) eqn:Hfile.
    - rewrite (Hmerged eq_refl). unfold optionsReadable.
      rewrite merged_scene.
      rewrite !(merged_other _ _ _ _ "control"), !(merged_other _ _ _ _ "terrain")
        by done.
      rewrite (nullish_object (mergeWith _ _ _ (viewOptions _ _ _)))
        by apply isObject_mergeWith.
      destruct (isObject (get fileOptions "scene")) eqn:Hscene.
      + rewrite (nullish_object (mergeWith _ _ _ _)) by apply isObject_mergeWith.
        rewrite (nullish_object (get _ "center")) by apply merged_center.
        rewrite (mergeWith_other_key true true _ _ "globe")
          by (by intros ?%list_elem_of_singleton).
        destruct fileOptions; try done.
        all: destruct (nullish (get _ "control")), (nullish (get _ "terrain")),
               (nullish (get _ "globe")); simpl; intuition congruence.
      + simpl. rewrite !andb_false_r. split; [done|]. by intros (_ & _ & _ & ? & _).
    - unfold mapOptionsOf. rewrite Hfile. simpl.
      split; [done|]. intros [Hobj _]. by destruct fileOptions. }
  split; [exact Hread|]. split.
  - unfold emitsOnload. cbv zeta. intros [Hr _]%andb_true_iff.
    apply Hread in Hr. tauto.
  - intros Hfile Hscene. rewrite (Hmerged Hfile), merged_scene. by rewrite Hscene.
Qed.

End CesiumMapViewSpec.

(** ** The trails and the cells of the store *)
Module StoreSpec.
Import Cesium MapStore.

Lemma append_cons (x : ascii) (a b : string) :
  String x a +:+ b = String x (a +:+ b).
Proof. reflexivity. Qed.

Lemma append_assoc (a b c : string) : (a +:+ b) +:+ c = a +:+ (b +:+ c).
Proof.
  induction a as [|x a IH]; [done|]. by rewrite !append_cons, IH.
Qed.

Lemma append_nil_r (a : string) : a +:+ "" = a.
Proof. induction a as [|x a IH]; [done|]. by rewrite append_cons, IH. Qed.

Lemma rev_app_append (a b c : string) :
  String.rev_app (a +:+ b) c = String.rev_app b (String.rev_app a c).
Proof.
  revert c. induction a as [|x a IH]; intros c; [done|].
  rewrite append_cons. simpl. apply IH.
Qed.

Lemma rev_app_acc (b c : string) : String.rev_app b c = String.rev b +:+ c.
Proof.
  unfold String.rev. revert c. induction b as [|x b IH]; intros c; simpl; [done|].
  rewrite IH, (IH (String x "")), append_assoc. done.
Qed.

Lemma rev_append (a b : string) : String.rev (a +:+ b) = String.rev b +:+ String.rev a.
Proof. unfold String.rev at 1. by rewrite rev_app_append, rev_app_acc. Qed.

Lemma rev_app_rev_app (a c d : string) :
  String.rev_app (String.rev_app a c) d = String.rev_app c (a +:+ d).
Proof.
  revert c d. induction a as [|x a IH]; intros c d; simpl; [done|].
  by rewrite IH, append_cons.
Qed.

Lemma rev_involutive (s : string) : String.rev (String.rev s) = s.
Proof. unfold String.rev. rewrite rev_app_rev_app. simpl. apply append_nil_r. Qed.

Lemma prefix_append (p q : string) : String.prefix p (p +:+ q) = true.
Proof.
  induction p as [|x p IH]; [by destruct q|].
  rewrite append_cons. simpl. by destruct (ascii_dec x x).
Qed.

Lemma endsWith_append (s suffix : string) : endsWith (s +:+ suffix) suffix = true.
Proof. unfold endsWith. rewrite rev_append. apply prefix_append. Qed.

(** Two drones never share a key of the trail map. *)
Lemma trailKey_inj (id id' : string) : trailKey id = trailKey id' → id = id'.
Proof.
  unfold trailKey. intros Heq. apply (f_equal String.rev) in Heq.
  rewrite !rev_append in Heq. apply String.app_inj in Heq.
  apply (f_equal String.rev) in Heq. by rewrite !rev_involutive in Heq.
Qed.

Section Trails.
Context `{Engine}.

(** X7.  The trail functions of the store are a map by drone id: after
    [setDroneTrail] the drone has the trail set, after [clearDroneTrail] it
    has none; neither touches the trail of another drone, although the keys
    are made by appending a suffix; and the trails and the graphic registry
    do not touch each other, also for equal ids. *)
Theorem drone_trail_store (s : Store) (droneId : string) (trailData : any) :
  getDroneTrail (setDroneTrail droneId trailData s) droneId = trailData
  ∧ hasDroneTrail (setDroneTrail droneId trailData s) droneId = true
  ∧ hasDroneTrail (clearDroneTrail droneId s) droneId = false
  ∧ getDroneTrail (clearDroneTrail droneId s) droneId = undefined
  ∧ (∀ other, other ≠ droneId →
       getDroneTrail (setDroneTrail droneId trailData s) other = getDroneTrail s other
       ∧ hasDroneTrail (setDroneTrail droneId trailData s) other = hasDroneTrail s other
       ∧ getDroneTrail (clearDroneTrail droneId s) other = getDroneTrail s other
       ∧ hasDroneTrail (clearDroneTrail droneId s) other = hasDroneTrail s other)
  ∧ (∀ id,
       getGraphicMap (setDroneTrail droneId trailData s) id = getGraphicMap s id
       ∧ getGraphicMap (clearDroneTrail droneId s) id = getGraphicMap s id
       ∧ ∀ graphic,
           getDroneTrail (setGraphicMap id graphic s) droneId = getDroneTrail s droneId
           ∧ getDroneTrail (removeGraphicMap id s) droneId = getDroneTrail s droneId).
Proof.
  unfold getDroneTrail, hasDroneTrail, setDroneTrail, clearDroneTrail. simpl.
  split; [by rewrite lookup_insert_eq|].
  split; [rewrite lookup_insert_eq; apply bool_decide_eq_true; eauto|].
  split; [rewrite lookup_delete_eq; apply bool_decide_eq_false; by intros [? ?]|].
  split; [by rewrite lookup_delete_eq|].
  split; [|done].
  intros other Hother.
  assert (trailKey droneId ≠ trailKey other) as Hkey
    by (intros Heq; by apply trailKey_inj in Heq).
  by rewrite lookup_insert_ne, lookup_delete_ne.
Qed.

Lemma exec_trailKeysOnly (c : Call) (s : Store) :
  trailKeysOnly s → trailKeysOnly (exec c s).
Proof.
  unfold trailKeysOnly. intros Hs. destruct c; simpl; try done.
  - intros key. destruct (decide (trailKey droneId = key)) as [<-|Hne].
    + intros _. apply endsWith_append.
    + rewrite lookup_insert_ne by done. apply Hs.
  - intros key. destruct (decide (trailKey droneId = key)) as [<-|Hne].
    + rewrite lookup_delete_eq. by intros [? ?].
    + rewrite lookup_delete_ne by done. apply Hs.
  - intros key [x [Hx _]%map_lookup_filter_Some]. apply Hs. eauto.
Qed.

Lemma run_trailKeysOnly (calls : list Call) (s : Store) :
  trailKeysOnly s → trailKeysOnly (run calls s).
Proof.
  unfold run. revert s. induction calls as [|c calls IH]; intros s Hs; [done|].
  simpl. by apply IH, exec_trailKeysOnly.
Qed.

(** X8.  After [clearAllDroneTrails] no drone has a trail, and the registry
    is as before.  The suffix test of its loop never fails in a store that
    was only used through its functions (every key there ends in "_trail"),
    so the trail map is then empty. *)
Theorem clearAllDroneTrails_clears (s : Store) (calls : list Call) :
  (∀ droneId,
     hasDroneTrail (clearAllDroneTrails s) droneId = false
     ∧ getDroneTrail (clearAllDroneTrails s) droneId = undefined)
  ∧ graphicMap (clearAllDroneTrails s) = graphicMap s
  ∧ droneTrails (clearAllDroneTrails (run calls initialStore)) = ∅.
Proof.
  assert (∀ (s : Store) droneId,
            droneTrails (clearAllDroneTrails s) !! trailKey droneId = None) as Hgone.
  { intros s' droneId. simpl. apply map_lookup_filter_None. right.
    intros x _. simpl. unfold trailKey. by rewrite endsWith_append. }
  split; [|split; [done|]].
  - intros droneId. unfold hasDroneTrail, getDroneTrail. rewrite Hgone.
    split; [|done]. apply bool_decide_eq_false. by intros [? ?].
  - apply map_empty. intros key. simpl. apply map_lookup_filter_None.
    destruct (droneTrails (run calls initialStore) !! key) as [x|] eqn:Hkey;
      [|by left].
    right. intros x' _. simpl.
    rewrite (run_trailKeysOnly calls initialStore); [done| |by eauto].
    intros key' [? Hempty]. simpl in Hempty. by rewrite lookup_empty in Hempty.
Qed.

End Trails.

Section Cells.
Context `{Engine}.



End Cells.

End StoreSpec.

(** ** [VoxelGrid] and the scene *)
Module VoxelGridSpec.
Import Cesium MapStore GridTypes App Grid GridTypesSpec GridSpec.

Section Scene.
Context `{Objects}.

Lemma filter_removeFirst_out (P : handle → Prop) `{!∀ x, Decision (P x)} p
    (ps : list handle) :
  ¬ P p → filter P (removeFirst p ps) = filter P ps.
Proof.
  intros Hp. induction ps as [|q ps IH]; simpl; [done|].
  destruct (decide (q = p)) as [->|Hne].
  - by rewrite filter_cons_False.
  - destruct (decide (P q)).
    + by rewrite !filter_cons_True, IH.
    + by rewrite !filter_cons_False.
Qed.

Lemma exec_others c (st : VoxelGrid * Runtime * list handle) :
  oneAtMost st →
  others (GridTypes.exec c st).2 (GridTypes.exec c st).1.2 = others st.2 st.1.2
  ∧ entities (GridTypes.exec c st).1.2 = entities st.1.2.
Proof.
  destruct st as [[g r] created]. intros [Hfresh Hlive].
  assert (∀ p, primitive g = Some p → p ∈ created) as Hown.
  { intros p Hp. simpl in Hlive. rewrite Hp in Hlive.
    assert (p ∈ live created r) as Hin
      by (rewrite Hlive; by apply list_elem_of_singleton).
    by apply list_elem_of_filter in Hin as [? _]. }
  assert (others created (clear g r).2 = others created r
          ∧ entities (clear g r).2 = entities r
          ∧ allocatedPrimitives (clear g r).2) as (Hclear & Hents & Hfresh').
  { unfold clear, others. destruct (primitive g) as [p|] eqn:Hp; simpl; [|done].
    split; [|split; [done|]].
    - apply filter_removeFirst_out. intros Hnot. by apply Hnot, Hown.
    - intros q Hq. by apply Hfresh, (removeFirst_subset p). }
  destruct c as [o|]; simpl.
  - unfold create. destruct (clear g r) as [g1 r1]. simpl in *.
    unfold others in *. simpl. split; [|done].
    rewrite filter_app, filter_cons_False, filter_nil, app_nil_r.
    + rewrite <-Hclear. apply filter_agree. intros q Hq.
      rewrite elem_of_app, list_elem_of_singleton.
      specialize (Hfresh' q Hq). split; [tauto|]. intros Hq' [?|?]; [done|lia].
    + intros Hnot. apply Hnot, elem_of_app. right. by apply list_elem_of_singleton.
  - by destruct (clear g r).
Qed.

Lemma foldl_exec_others (calls : list GridTypes.Call) st :
  oneAtMost st →
  let st' := foldl (λ st c, GridTypes.exec c st) st calls in
  others st'.2 st'.1.2 = others st.2 st.1.2
  ∧ entities st'.1.2 = entities st.1.2.
Proof.
  revert st. induction calls as [|c calls IH]; intros st Hst; [done|].
  simpl. destruct (exec_others c st Hst) as [Hothers Hents].
  rewrite <-Hothers, <-Hents. apply IH. by apply exec_oneAtMost.
Qed.

(** X9.  Whatever sequence of [create] and [clear] calls a new instance
    goes through, the primitives of the scene that it did not create are the
    scene's primitives from before, in their order, and the viewer's
    entities are untouched: an instance removes nothing but its own
    primitive. *)
Theorem voxel_grid_keeps_other_primitives (calls : list GridTypes.Call)
    (r : Runtime) :
  allocated r →
  others (GridTypes.run calls r).2 (GridTypes.run calls r).1.2 = primitives r
  ∧ entities (GridTypes.run calls r).1.2 = entities r.
Proof.
  intros [_ Hfresh].
  assert (oneAtMost (newVoxelGrid, r, [])) as Hone.
  { split; [done|]. unfold live. simpl. apply filter_none.
    intros p _. by intros ?%elem_of_nil. }
  destruct (foldl_exec_others calls _ Hone) as [Hothers Hents].
  unfold GridTypes.run. rewrite Hothers, Hents. split; [|done].
  unfold others. simpl. apply filter_all. by intros p _ ?%elem_of_nil.
Qed.

Lemma create3DVoxelGrid_step (w : World) :
  getMap (mapStore w) ≠ None →
  let w' := create3DVoxelGrid w in
  mapStore w' = mapStore w
  ∧ primitives (runtime w') = primitives (runtime w) ++ [nextHandle (runtime w)]
  ∧ entities (runtime w') = entities (runtime w)
  ∧ nextHandle (runtime w') = S (nextHandle (runtime w))
  ∧ heap (runtime w')
    = <[nextHandle (runtime w) := build (VoxelPrimitive (voxelInstances demoVoxels))]>
        (heap (runtime w))
  ∧ voxelGrid w' = Some {| primitive := Some (nextHandle (runtime w)) |}.
Proof.
  intros Hmap. unfold create3DVoxelGrid.
  destruct (getMap (mapStore w)); [|done]. done.
Qed.

Lemma create3DVoxelGrid_iter (k : nat) (w : World) :
  getMap (mapStore w) ≠ None →
  let w' := Nat.iter k create3DVoxelGrid w in
  mapStore w' = mapStore w
  ∧ primitives (runtime w') = primitives (runtime w) ++ seq (nextHandle (runtime w)) k
  ∧ entities (runtime w') = entities (runtime w)
  ∧ nextHandle (runtime w') = (nextHandle (runtime w) + k)%nat
  ∧ (∀ p, (nextHandle (runtime w) ≤ p < nextHandle (runtime w) + k)%nat →
       heap (runtime w') !! p
       = Some (build (VoxelPrimitive (voxelInstances demoVoxels)))).
Proof.
  intros Hmap. induction k as [|k IH]; cbv zeta.
  - simpl. rewrite app_nil_r, Nat.add_0_r. repeat split; try done. lia.
  - cbv zeta in IH. destruct IH as (Hstore & Hprims & Hents & Hnext & Hnew).
    rewrite Nat.iter_succ.
    assert (getMap (mapStore (Nat.iter k create3DVoxelGrid w)) ≠ None) as Hmap'
      by (by rewrite Hstore).
    destruct (create3DVoxelGrid_step _ Hmap')
      as (Hstore' & Hprims' & Hents' & Hnext' & Hheap' & _).
    rewrite Hstore', Hprims', Hents', Hnext', Hheap', Hstore, Hprims, Hents, Hnext.
    repeat split.
    + rewrite seq_S, app_assoc. done.
    + lia.
    + intros p Hp. destruct (decide (p = (nextHandle (runtime w) + k)%nat)) as [->|Hne].
      * by rewrite lookup_insert_eq.
      * rewrite lookup_insert_ne by done. apply Hnew. lia.
Qed.

(** X10.  [create3DVoxelGrid] makes a new [VoxelGrid] at every call, so the
    grid of the call before is never cleared: after k calls the scene holds
    k more primitives, each with the 1000 instances of the demo grid, and
    the helper's reference is to the last one.  The viewer's entities are
    untouched. *)
Theorem voxel_grids_pile_up (k : nat) (w : World) :
  getMap (mapStore w) ≠ None →
  let w' := Nat.iter k create3DVoxelGrid w in
  primitives (runtime w') = primitives (runtime w) ++ seq (nextHandle (runtime w)) k
  ∧ entities (runtime w') = entities (runtime w)
  ∧ (∀ p, p ∈ seq (nextHandle (runtime w)) k →
       ∃ instances,
         heap (runtime w') !! p = Some (build (VoxelPrimitive instances))
         ∧ length instances = 1000%nat)
  ∧ ((0 < k)%nat →
     voxelGrid w'
     = Some {| primitive := Some (nextHandle (runtime w) + k - 1)%nat |}).
Proof.
  intros Hmap. cbv zeta.
  destruct (create3DVoxelGrid_iter k w Hmap) as (Hstore & Hprims & Hents & Hnext & Hnew).
  split; [done|]. split; [done|]. split.
  - intros p Hp%elem_of_seq. exists (voxelInstances demoVoxels). split.
    + apply Hnew. lia.
    + apply Nat2Z.inj. rewrite length_voxelInstances; done.
  - intros Hk. destruct k as [|k]; [lia|]. rewrite Nat.iter_succ.
    destruct (create3DVoxelGrid_iter k w Hmap) as (Hstore' & _ & _ & Hnext' & _).
    assert (getMap (mapStore (Nat.iter k create3DVoxelGrid w)) ≠ None) as Hmap'
      by (by rewrite Hstore').
    destruct (create3DVoxelGrid_step _ Hmap') as (_ & _ & _ & _ & _ & ->).
    rewrite Hnext'. do 3 f_equal. lia.
Qed.

End Scene.

#[local] Existing Instance Reference.engine.
#[local] Existing Instance Reference.objects.

Lemma voxel_grid_keeps_other_primitives_witness :
  others
    (GridTypes.run [Create Reference.sampleVoxels; Create Reference.sampleVoxels; Clear]
       (runtime Reference.worldWithCone)).2
    (GridTypes.run [Create Reference.sampleVoxels; Create Reference.sampleVoxels; Clear]
       (runtime Reference.worldWithCone)).1.2
  = primitives (runtime Reference.worldWithCone).
Proof.
  refine (proj1 (voxel_grid_keeps_other_primitives
                   [Create Reference.sampleVoxels; Create Reference.sampleVoxels; Clear]
                   (runtime Reference.worldWithCone) _)).
  split.
  - intros e He. change (e ∈ @nil Entity) in He. by apply elem_of_nil in He.
  - intros p Hp. change (p ∈ [0%nat]) in Hp.
    apply list_elem_of_singleton in Hp as ->. change (0 < 1)%nat. lia.
Defined.

Lemma voxel_grids_pile_up_witness :
  primitives (runtime (Nat.iter 2 create3DVoxelGrid Reference.worldWithCone))
  = primitives (runtime Reference.worldWithCone)
    ++ seq (nextHandle (runtime Reference.worldWithCone)) 2.
Proof.
  refine (proj1 (voxel_grids_pile_up 2 Reference.worldWithCone _)).
  discriminate.
Defined.

End VoxelGridSpec.

(** ** The plane grid: what the loops and the clearing do *)
Module PlaneGridSpec.
Import Cesium MapStore App Grid GridSpec.

Section Grid.
Context `{Objects}.

(** A loop that is entered and whose counter the step does not move is
    never left. *)
Lemma forLe_stuck {S : Type} (fuel : nat) (i to step : number)
    (body : number → S → S) (s : S) :
  numLe i to = true → numAdd i step = i →
  forLe fuel i to step body s = None.
Proof.
  intros Hle Hstep. revert s. induction fuel as [|fuel IH]; intros s; simpl.
  - by rewrite Hle.
  - rewrite Hle, Hstep. apply IH.
Qed.

(** X11.  [createGridEffect] does not check its step: when one of its two
    loops is entered and adding the step leaves the loop's counter where it
    is (a step of zero), the call never returns, whatever the fuel. *)
Theorem createGridEffect_never_returns (o : GridOptions) (w : World) :
  getMap (mapStore w) ≠ None →
  (numLe (south o) (north o) = true ∧ numAdd (south o) (step o) = south o)
  ∨ (numLe (west o) (east o) = true ∧ numAdd (west o) (step o) = west o) →
  ∀ fuel, createGridEffect fuel o w = None.
Proof.
  intros Hmap Hstuck fuel. unfold createGridEffect.
  destruct (getMap (mapStore w)); [|done].
  destruct Hstuck as [[Hle Hstep]|[Hle Hstep]].
  - by rewrite forLe_stuck.
  - destruct (forLe fuel (south o) _ _ _ w) as [w'|]; [|done]. simpl.
    by apply forLe_stuck.
Qed.

Lemma removeEntities_frame (hs : list handle) (r : Runtime) :
  let r' := foldl (λ r e, removeEntity (guid e) r) r hs in
  primitives r' = primitives r ∧ heap r' = heap r ∧ console r' = console r.
Proof.
  revert r. induction hs as [|h hs IH]; intros r; [done|].
  simpl. destruct (IH (removeEntity (guid h) r)) as (-> & -> & ->). done.
Qed.

(** X12.  With a map instance, [clearAirGrid] removes from the viewer the
    entities that [gridEntities] holds and no other: the other entities stay
    in their order, the primitives, the objects, the console, the store and
    the voxel grid are as before, [gridEntities] is empty, and a second call
    changes nothing. *)
Theorem clearAirGrid_removes_the_grid_only (w : World) :
  getMap (mapStore w) ≠ None →
  let w' := clearAirGrid w in
  gridEntities w' = []
  ∧ entities (runtime w')
    = filter (λ e, entityId e ∉ guid <$> gridEntities w) (entities (runtime w))
  ∧ (∀ e, e ∈ entities (runtime w) → entityId e ∉ guid <$> gridEntities w →
       e ∈ entities (runtime w'))
  ∧ primitives (runtime w') = primitives (runtime w)
  ∧ heap (runtime w') = heap (runtime w)
  ∧ console (runtime w') = console (runtime w)
  ∧ mapStore w' = mapStore w
  ∧ voxelGrid w' = voxelGrid w
  ∧ clearAirGrid w' = w'.
Proof.
  intros Hmap. cbv zeta. rewrite (entities_cleared w Hmap).
  unfold clearAirGrid. destruct (getMap (mapStore w)) as [m|] eqn:Hm; [|done].
  simpl. rewrite Hm.
  destruct (removeEntities_frame (gridEntities w) (runtime w)) as (-> & -> & ->).
  repeat split; try done.
  intros e He Hid. by apply list_elem_of_filter.
Qed.

Lemma forLe_rounds {S : Type} (fuel : nat) (i to step : number)
    (body : number → S → S) (s : S) :
  forLe fuel i to step body s
  = (λ l, foldl (λ s x, body x s) s l) <$> rounds fuel i to step.
Proof.
  revert i s. induction fuel as [|fuel IH]; intros i s; simpl.
  - by destruct (numLe i to).
  - destruct (numLe i to); [|done]. rewrite IH.
    by destruct (rounds fuel (numAdd i step) to step).
Qed.

(** What adding the lines [reqs] one after the other does. *)
Lemma addLines (reqs : list request) (w : World) :
  let w' := foldl (λ w req, addLine req w) w reqs in
  let n := nextHandle (runtime w) in
  mapStore w' = mapStore w
  ∧ voxelGrid w' = voxelGrid w
  ∧ primitives (runtime w') = primitives (runtime w)
  ∧ console (runtime w') = console (runtime w)
  ∧ nextHandle (runtime w') = (n + length reqs)%nat
  ∧ gridEntities w' = gridEntities w ++ seq n (length reqs)
  ∧ entities (runtime w') = entities (runtime w) ++ (line <$> seq n (length reqs))
  ∧ (∀ i req, reqs !! i = Some req →
       heap (runtime w') !! (n + i)%nat = Some (build req))
  ∧ (∀ h, (h < n)%nat → heap (runtime w') !! h = heap (runtime w) !! h).
Proof.
  cbv zeta. revert w. induction reqs as [|req reqs IH]; intros w.
  - simpl. rewrite !app_nil_r, Nat.add_0_r. by repeat split.
  - simpl foldl. destruct (IH (addLine req w))
      as (Hstore & Hvoxel & Hprims & Hconsole & Hnext & Hgrid & Hents & Hnew & Hold).
    rewrite Hstore, Hvoxel, Hprims, Hconsole, Hnext, Hgrid, Hents.
    unfold addLine, addEntity in *. simpl in *.
    rewrite <-!app_assoc. simpl.
    do 4 (split; [done|]). split; [lia|]. do 2 (split; [done|]). split.
    + intros [|i] r Hr; simpl in Hr.
      * injection Hr as ->. rewrite Nat.add_0_r, Hold by lia.
        by rewrite lookup_insert_eq.
      * replace (nextHandle (runtime w) + S i)%nat
          with (S (nextHandle (runtime w)) + i)%nat by lia.
        by apply Hnew.
    + intros h Hh. rewrite Hold by lia. rewrite lookup_insert_ne by lia. done.
Qed.

(** X22.  With a map instance, a [createGridEffect] call that returns has
    added one polyline per round of its two loops and nothing else: the
    lines of the latitudes first, then those of the longitudes, each built
    from the options and the counter of its round, as new entities at the
    end of the viewer's collection and of [gridEntities], in that order.
    The scene's primitives, the console and the store are as before. *)
Theorem createGridEffect_adds_one_line_per_round (fuel : nat) (o : GridOptions)
    (w w1 : World) :
  getMap (mapStore w) ≠ None →
  createGridEffect fuel o w = Some w1 →
  ∃ lats lons,
    rounds fuel (south o) (north o) (step o) = Some lats
    ∧ rounds fuel (west o) (east o) (step o) = Some lons
    ∧ let n := nextHandle (runtime w) in
      let count := (length lats + length lons)%nat in
      gridEntities w1 = gridEntities w ++ seq n count
      ∧ entities (runtime w1) = entities (runtime w) ++ (line <$> seq n count)
      ∧ (∀ i req, gridLines o lats lons !! i = Some req →
           heap (runtime w1) !! (n + i)%nat = Some (build req))
      ∧ primitives (runtime w1) = primitives (runtime w)
      ∧ console (runtime w1) = console (runtime w)
      ∧ mapStore w1 = mapStore w.
Proof.
  intros Hmap. unfold createGridEffect.
  destruct (getMap (mapStore w)); [|done].
  rewrite !forLe_rounds.
  destruct (rounds fuel (south o) (north o) (step o)) as [lats|]; [|done]. simpl.
  rewrite forLe_rounds.
  destruct (rounds fuel (west o) (east o) (step o)) as [lons|]; [|done]. simpl.
  intros [= <-]. exists lats, lons. split; [done|]. split; [done|]. cbv zeta.
  assert (∀ (req : number → request) xs (w0 : World),
            foldl (λ s x, addLine (req x) s) w0 xs
            = foldl (λ w r, addLine r w) w0 (req <$> xs)) as Hmapped.
  { intros req xs. induction xs as [|x xs IH]; intros w0; [done|]. simpl. apply IH. }
  rewrite !Hmapped, <-foldl_app. fold (gridLines o lats lons).
  destruct (addLines (gridLines o lats lons) w)
    as (Hstore & _ & Hprims & Hconsole & _ & Hgrid & Hents & Hnew & _).
  assert (length (gridLines o lats lons) = (length lats + length lons)%nat) as Hlen
    by (unfold gridLines; by rewrite length_app, !length_fmap).
  rewrite Hlen in *. done.
Qed.

End Grid.

#[local] Existing Instance Reference.engine.
#[local] Existing Instance Reference.objects.

Lemma createGridEffect_never_returns_witness :
  createGridEffect 7 Reference.stuckGrid Reference.loadedWorld = None.
Proof.
  refine (createGridEffect_never_returns Reference.stuckGrid Reference.loadedWorld
            _ _ 7%nat).
  - discriminate.
  - left. split; reflexivity.
Defined.

Lemma clearAirGrid_removes_the_grid_only_witness :
  gridEntities (clearAirGrid Reference.gridWorld) = []
  ∧ entities (runtime (clearAirGrid Reference.gridWorld))
    = filter (λ e, entityId e ∉ guid <$> gridEntities Reference.gridWorld)
        (entities (runtime Reference.gridWorld)).
Proof.
  pose proof (clearAirGrid_removes_the_grid_only Reference.gridWorld) as Hclear.
  cbv zeta in Hclear.
  destruct Hclear as (Hgrid & Hentities & _); [discriminate|].
  exact (conj Hgrid Hentities).
Defined.

Lemma createGridEffect_adds_one_line_per_round_witness :
  ∃ lats lons,
    rounds 3 (south Reference.sampleGrid) (north Reference.sampleGrid)
      (step Reference.sampleGrid) = Some lats
    ∧ rounds 3 (west Reference.sampleGrid) (east Reference.sampleGrid)
        (step Reference.sampleGrid) = Some lons
    ∧ let n := nextHandle (runtime Reference.loadedWorld) in
      let count := (length lats + length lons)%nat in
      gridEntities Reference.gridWorld
      = gridEntities Reference.loadedWorld ++ seq n count
      ∧ entities (runtime Reference.gridWorld)
        = entities (runtime Reference.loadedWorld) ++ (line <$> seq n count)
      ∧ (∀ i req, gridLines Reference.sampleGrid lats lons !! i = Some req →
           heap (runtime Reference.gridWorld) !! (n + i)%nat = Some (build req))
      ∧ primitives (runtime Reference.gridWorld)
        = primitives (runtime Reference.loadedWorld)
      ∧ console (runtime Reference.gridWorld)
        = console (runtime Reference.loadedWorld)
      ∧ mapStore Reference.gridWorld = mapStore Reference.loadedWorld.
Proof.
  apply (createGridEffect_adds_one_line_per_round 3 Reference.sampleGrid
           Reference.loadedWorld Reference.gridWorld).
  - discriminate.
  - reflexivity.
Defined.

End PlaneGridSpec.

(** ** The point helpers *)
Module SetPointSpec.
Import Cesium MapStore App SetPoint MapStoreSpec HelpersSpec GridSpec.

Section Points.
Context `{Objects}.
Variable setDroneTrail : string → Cartesian3 → World → World.

Lemma getGraphicMap_register (w : World) id g :
  getGraphicMap (mapStore (register id g w)) id = g.
Proof. unfold getGraphicMap. simpl. by rewrite lookup_insert_eq. Qed.

Lemma hasGraphicMap_false (s : Store) id :
  hasGraphicMap s id = false ↔ graphicMap s !! id = None.
Proof.
  unfold hasGraphicMap. rewrite bool_decide_eq_false.
  by rewrite eq_None_not_Some.
Qed.

(** What the guarded helpers do with an id that the registry holds. *)
Lemma registered_is_returned (w : World) id :
  getMap (mapStore w) ≠ None → hasGraphicMap (mapStore w) id = true →
  (∀ o, pt_id o = id →
     (setPointEntityByImg o w).1 = getGraphicMap (mapStore w) id
     ∧ sameButConsole w (setPointEntityByImg o w).2)
  ∧ (∀ o, pt_id o = id →
     (setPointPrimitiveByImg o w).1 = getGraphicMap (mapStore w) id
     ∧ sameButConsole w (setPointPrimitiveByImg o w).2)
  ∧ (∀ o, glb_id o = id →
     (setPointByGlb o w).1 = getGraphicMap (mapStore w) id
     ∧ sameButConsole w (setPointByGlb o w).2).
Proof.
  intros Hmap Hhas. destruct (getMap (mapStore w)) as [m|] eqn:Hm; [|done].
  split; [|split]; intros o <-;
    unfold setPointEntityByImg, setPointPrimitiveByImg, setPointByGlb;
    rewrite Hm, Hhas; done.
Qed.

Ltac map_is_there Hm := unfold getMap in *; simpl; by rewrite Hm.

(** X13.  With a map instance, [setPointEntityByImg] and [setPointByGlb]
    called with an id that the registry does not hold add one entity to the
    viewer, built from the options, register it under the id and return it;
    the scene's primitives and the other registry entries are as before.
    A later call of either helper with that id, whatever its other options,
    returns the entity of the first call and changes the console only: the
    registry is shared, and neither the position nor the model is
    updated. *)
Theorem entity_points_are_created_once (w : World) :
  getMap (mapStore w) ≠ None →
  let h := nextHandle (runtime w) in
  (∀ o, hasGraphicMap (mapStore w) (pt_id o) = false →
     let w1 := (setPointEntityByImg o w).2 in
     (setPointEntityByImg o w).1 = ref h
     ∧ entities (runtime w1)
       = entities (runtime w) ++ [{| entityId := guid h; entityRef := h |}]
     ∧ heap (runtime w1) = <[h := build (PointEntity o)]> (heap (runtime w))
     ∧ primitives (runtime w1) = primitives (runtime w)
     ∧ graphicMap (mapStore w1) = <[pt_id o := ref h]> (graphicMap (mapStore w))
     ∧ (∀ o', pt_id o' = pt_id o →
          (setPointEntityByImg o' w1).1 = ref h
          ∧ sameButConsole w1 (setPointEntityByImg o' w1).2)
     ∧ (∀ g, glb_id g = pt_id o →
          (setPointByGlb g w1).1 = ref h
          ∧ sameButConsole w1 (setPointByGlb g w1).2))
  ∧ (∀ o, hasGraphicMap (mapStore w) (glb_id o) = false →
     let w1 := (setPointByGlb o w).2 in
     (setPointByGlb o w).1 = ref h
     ∧ entities (runtime w1)
       = entities (runtime w) ++ [{| entityId := guid h; entityRef := h |}]
     ∧ heap (runtime w1) = <[h := build (ModelEntity o)]> (heap (runtime w))
     ∧ primitives (runtime w1) = primitives (runtime w)
     ∧ graphicMap (mapStore w1) = <[glb_id o := ref h]> (graphicMap (mapStore w))
     ∧ (∀ o', glb_id o' = glb_id o →
          (setPointByGlb o' w1).1 = ref h
          ∧ sameButConsole w1 (setPointByGlb o' w1).2)
     ∧ (∀ p, pt_id p = glb_id o →
          (setPointEntityByImg p w1).1 = ref h
          ∧ sameButConsole w1 (setPointEntityByImg p w1).2)).
Proof.
  intros Hmap. cbv zeta. destruct (getMap (mapStore w)) as [m|] eqn:Hm; [|done].
  split; intros o Hnew.
  - assert (setPointEntityByImg o w
            = (ref (nextHandle (runtime w)),
               register (pt_id o) (ref (nextHandle (runtime w)))
                 (withRuntime (addEntity (PointEntity o) (runtime w)).2 w))) as ->.
    { unfold setPointEntityByImg. by rewrite Hm, Hnew. }
    simpl. do 5 (split; [done|]).
    match goal with
    | |- context [register ?id ?g ?w0] =>
        destruct (registered_is_returned (register id g w0) id) as (He & _ & Hg)
    end; [map_is_there Hm|apply hasGraphicMap_set_eq|].
    split; intros o' Hid.
    + destruct (He o' Hid) as [-> ?]. by rewrite getGraphicMap_register.
    + destruct (Hg o' Hid) as [-> ?]. by rewrite getGraphicMap_register.
  - assert (setPointByGlb o w
            = (ref (nextHandle (runtime w)),
               register (glb_id o) (ref (nextHandle (runtime w)))
                 (withRuntime (addEntity (ModelEntity o) (runtime w)).2 w))) as ->.
    { unfold setPointByGlb. by rewrite Hm, Hnew. }
    simpl. do 5 (split; [done|]).
    match goal with
    | |- context [register ?id ?g ?w0] =>
        destruct (registered_is_returned (register id g w0) id) as (He & _ & Hg)
    end; [map_is_there Hm|apply hasGraphicMap_set_eq|].
    split; intros o' Hid.
    + destruct (Hg o' Hid) as [-> ?]. by rewrite getGraphicMap_register.
    + destruct (He o' Hid) as [-> ?]. by rewrite getGraphicMap_register.
Qed.

(** X14.  With a map instance and an id that the registry does not hold,
    [setPointPrimitiveByImg] appends a new element to the viewer's container
    and registers and returns a new result object that refers to it; the
    viewer's entities and the scene's primitives are as before, and a second
    call with the id returns the same object.  The result's [destroy] undoes
    what the call did to the container and to the store. *)
Theorem primitive_point_round_trip (o : PointOptions) (w : World) :
  getMap (mapStore w) ≠ None →
  hasGraphicMap (mapStore w) (pt_id o) = false →
  allocatedChildren (runtime w) →
  let div := nextHandle (runtime w) in
  let listener := S div in
  let result := S listener in
  let w1 := (setPointPrimitiveByImg o w).2 in
  let w2 := destroyPoint o div listener w1 in
  (setPointPrimitiveByImg o w).1 = ref result
  ∧ heap (runtime w1) !! result = Some (build (PointResult o div listener))
  ∧ containerChildren (runtime w1) = containerChildren (runtime w) ++ [div]
  ∧ getGraphicMap (mapStore w1) (pt_id o) = ref result
  ∧ entities (runtime w1) = entities (runtime w)
  ∧ primitives (runtime w1) = primitives (runtime w)
  ∧ ((setPointPrimitiveByImg o w1).1 = ref result
     ∧ sameButConsole w1 (setPointPrimitiveByImg o w1).2)
  ∧ containerChildren (runtime w2) = containerChildren (runtime w)
  ∧ mapStore w2 = mapStore w
  ∧ entities (runtime w2) = entities (runtime w)
  ∧ primitives (runtime w2) = primitives (runtime w).
Proof.
  intros Hmap Hnew Hdom. cbv zeta.
  destruct (getMap (mapStore w)) as [m|] eqn:Hm; [|done].
  set (h := nextHandle (runtime w)).
  assert (∃ r1,
    setPointPrimitiveByImg o w
    = (ref (S (S h)), register (pt_id o) (ref (S (S h))) (withRuntime r1 w))
    ∧ heap r1 !! S (S h) = Some (build (PointResult o h (S h)))
    ∧ containerChildren r1 = containerChildren (runtime w) ++ [h]
    ∧ entities r1 = entities (runtime w)
    ∧ primitives r1 = primitives (runtime w)) as (r1 & -> & Hheap & Hdiv & Hents & Hprims).
  { eexists. unfold setPointPrimitiveByImg. rewrite Hm, Hnew. simpl.
    split; [reflexivity|]. simpl. by rewrite lookup_insert_eq. }
  simpl.
  destruct (registered_is_returned
              (register (pt_id o) (ref (S (S h))) (withRuntime r1 w)) (pt_id o))
    as (_ & Hp & _); [map_is_there Hm|apply hasGraphicMap_set_eq|].
  destruct (Hp o eq_refl) as [Hv Hsame]. rewrite Hv, getGraphicMap_register.
  do 3 (split; [done|]).
  split; [unfold getGraphicMap; simpl; by rewrite lookup_insert_eq|].
  do 3 (split; [done|]). split; [|split; [|done]].
  - rewrite Hdiv, filter_app, filter_cons_False, filter_nil, app_nil_r by (by intros []).
    apply filter_all. intros c Hc ->. specialize (Hdom _ Hc). unfold h in Hdom. lia.
  - unfold removeGraphicMap, withGraphicMap. simpl.
    apply hasGraphicMap_false in Hnew. rewrite delete_insert_id by done.
    by destruct (mapStore w).
Qed.

(** One round of the [forEach] of [setBatchPointsByImg]: the entry of the
    round's id is there afterwards, no entry is replaced or removed, the
    round adds an entry for its own id at most, and it leaves the viewer's
    collections and the map instance alone. *)
Lemma addBatchPoint_round (o : BatchOptions) (w : World) (i : nat) :
  let w' := addBatchPoint o w i in
  hasGraphicMap (mapStore w') (pretty i) = true
  ∧ (∀ id g, graphicMap (mapStore w) !! id = Some g →
       graphicMap (mapStore w') !! id = Some g)
  ∧ (∀ id, id ≠ pretty i →
       graphicMap (mapStore w') !! id = graphicMap (mapStore w) !! id)
  ∧ (hasGraphicMap (mapStore w) (pretty i) = true → mapStore w' = mapStore w)
  ∧ getMap (mapStore w') = getMap (mapStore w)
  ∧ entities (runtime w') = entities (runtime w)
  ∧ primitives (runtime w') = primitives (runtime w).
Proof.
  cbv zeta. unfold addBatchPoint.
  destruct (hasGraphicMap (mapStore w) (pretty i)) eqn:Hhas.
  - simpl. rewrite Hhas. by repeat split.
  - simpl. split; [apply hasGraphicMap_set_eq|].
    apply hasGraphicMap_false in Hhas.
    split; [|split; [|split; [done|]]].
    + intros id g Hg. rewrite lookup_insert_ne; [done|]. intros <-. congruence.
    + intros id Hne. by rewrite lookup_insert_ne.
    + by repeat split.
Qed.

Lemma addBatchPoint_rounds (o : BatchOptions) (ids : list nat) (w : World) :
  let w' := foldl (addBatchPoint o) w ids in
  (∀ i, i ∈ ids → hasGraphicMap (mapStore w') (pretty i) = true)
  ∧ (∀ id g, graphicMap (mapStore w) !! id = Some g →
       graphicMap (mapStore w') !! id = Some g)
  ∧ (∀ id, id ∉ pretty <$> ids →
       graphicMap (mapStore w') !! id = graphicMap (mapStore w) !! id)
  ∧ ((∀ i, i ∈ ids → hasGraphicMap (mapStore w) (pretty i) = true) →
       mapStore w' = mapStore w)
  ∧ getMap (mapStore w') = getMap (mapStore w)
  ∧ entities (runtime w') = entities (runtime w)
  ∧ primitives (runtime w') = primitives (runtime w).
Proof.
  cbv zeta. revert w. induction ids as [|i ids IH]; intros w.
  - simpl. split; [by intros i ?%elem_of_nil|]. by repeat split.
  - simpl.
    destruct (addBatchPoint_round o w i)
      as (Hhas & Hkeep & Hother & Hsame & Hmap & Hents & Hprims).
    destruct (IH (addBatchPoint o w i))
      as (Hhas' & Hkeep' & Hother' & Hsame' & Hmap' & Hents' & Hprims').
    split; [|split; [|split; [|split]]].
    + intros j [->|Hj]%elem_of_cons; [|by apply Hhas'].
      apply hasGraphicMap_true in Hhas as [g Hg].
      apply hasGraphicMap_true. rewrite (Hkeep' _ _ Hg). eauto.
    + intros id g Hg. by apply Hkeep', Hkeep.
    + intros id Hid. apply not_elem_of_cons in Hid as [Hne Hid].
      by rewrite Hother', Hother.
    + intros Hall. rewrite Hsame'.
      * apply Hsame, Hall. by left.
      * intros j Hj. assert (hasGraphicMap (mapStore w) (pretty j) = true) as Hw
          by (apply Hall; by right).
        apply hasGraphicMap_true in Hw as [g Hg]. apply hasGraphicMap_true.
        rewrite (Hkeep _ _ Hg). eauto.
    + by rewrite Hmap', Hents', Hprims'.
Qed.

(** The call as its rounds and what it does around them. *)
Lemma setBatchPointsByImg_eq (o : BatchOptions) (w : World) :
  getMap (mapStore w) ≠ None →
  let r0 := (allocate (build LabelCollection)
               (allocate (build BillboardCollection) (runtime w)).2).2 in
  let w1 := foldl (addBatchPoint o) (withRuntime r0 w) batchIds in
  mapStore (setBatchPointsByImg o w).2 = mapStore w1
  ∧ entities (runtime (setBatchPointsByImg o w).2) = entities (runtime w1)
  ∧ primitives (runtime (setBatchPointsByImg o w).2)
    = primitives (runtime w1) ++ [nextHandle (runtime w); S (nextHandle (runtime w))].
Proof.
  intros Hmap. cbv zeta. unfold setBatchPointsByImg, batchIds.
  destruct (getMap (mapStore w)); [|done].
  generalize (seq 0 (Z.to_nat 10000)). intros ids.
  unfold allocate at 1 2. cbn [snd fst nextHandle].
  generalize (foldl (addBatchPoint o)). intros f.
  cbn. rewrite <-app_assoc. done.
Qed.

Lemma elem_of_batchIds (i : nat) : i ∈ batchIds ↔ Z.of_nat i < 10000.
Proof. unfold batchIds. rewrite elem_of_seq. lia. Qed.

#[local] Opaque batchIds.

Lemma setBatchPointsByImg_effect (o : BatchOptions) (w : World) :
  getMap (mapStore w) ≠ None →
  let w' := (setBatchPointsByImg o w).2 in
  getMap (mapStore w') = getMap (mapStore w)
  ∧ (∀ i, i ∈ batchIds → hasGraphicMap (mapStore w') (pretty i) = true)
  ∧ (∀ id g, graphicMap (mapStore w) !! id = Some g →
       graphicMap (mapStore w') !! id = Some g)
  ∧ (∀ id, id ∉ pretty <$> batchIds →
       graphicMap (mapStore w') !! id = graphicMap (mapStore w) !! id)
  ∧ ((∀ i, i ∈ batchIds → hasGraphicMap (mapStore w) (pretty i) = true) →
       mapStore w' = mapStore w)
  ∧ primitives (runtime w')
    = primitives (runtime w) ++ [nextHandle (runtime w); S (nextHandle (runtime w))]
  ∧ entities (runtime w') = entities (runtime w).
Proof.
  intros Hmap. cbv zeta.
  destruct (setBatchPointsByImg_eq o w Hmap) as (Hstore & Hents & Hprims).
  cbv zeta in *. rewrite Hstore, Hents, Hprims.
  match goal with
  | |- context [foldl (addBatchPoint o) ?w0 batchIds] =>
      destruct (addBatchPoint_rounds o batchIds w0)
        as (Hhas & Hkeep & Hother & Hsame & Hmap1 & Hents1 & Hprims1)
  end.
  cbv zeta in *. rewrite Hmap1, Hents1, Hprims1.
  split; [reflexivity|]. split; [exact Hhas|]. split; [exact Hkeep|].
  split; [exact Hother|]. split; [exact Hsame|]. split; reflexivity.
Qed.

(** X15.  With a map instance, [setBatchPointsByImg] leaves every id
    [`${i}`], i < 10000, in the registry; an entry the registry held keeps
    its value (a round whose id is taken adds nothing), and no other id is
    touched.  It adds its two collections to the scene's primitives and
    leaves the viewer's entities alone.  A second call finds every id taken:
    it changes no entry and adds two more collections. *)
Theorem batch_points_fill_the_registry (o : BatchOptions) (w : World) :
  getMap (mapStore w) ≠ None →
  let w' := (setBatchPointsByImg o w).2 in
  (∀ i : nat, Z.of_nat i < 10000 → hasGraphicMap (mapStore w') (pretty i) = true)
  ∧ (∀ id g, graphicMap (mapStore w) !! id = Some g →
       graphicMap (mapStore w') !! id = Some g)
  ∧ (∀ id, (∀ i : nat, Z.of_nat i < 10000 → id ≠ pretty i) →
       graphicMap (mapStore w') !! id = graphicMap (mapStore w) !! id)
  ∧ primitives (runtime w')
    = primitives (runtime w) ++ [nextHandle (runtime w); S (nextHandle (runtime w))]
  ∧ entities (runtime w') = entities (runtime w)
  ∧ (∀ o', mapStore (setBatchPointsByImg o' w').2 = mapStore w'
           ∧ length (primitives (runtime (setBatchPointsByImg o' w').2))
             = (length (primitives (runtime w)) + 4)%nat).
Proof.
  intros Hmap. cbv zeta.
  destruct (setBatchPointsByImg_effect o w Hmap)
    as (Hmap1 & Hhas & Hkeep & Hother & _ & Hprims & Hents).
  cbv zeta in *. revert Hmap1 Hhas Hkeep Hother Hprims Hents.
  generalize (setBatchPointsByImg o w).2. intros w1 Hmap1 Hhas Hkeep Hother Hprims Hents.
  split; [|split; [|split; [|split; [|split]]]].
  - intros i Hi. by apply Hhas, elem_of_batchIds.
  - exact Hkeep.
  - intros id Hid. rewrite Hother; [done|].
    intros (i & -> & Hi)%list_elem_of_fmap. apply (Hid i); [by apply elem_of_batchIds|done].
  - exact Hprims.
  - exact Hents.
  - intros o'.
    assert (getMap (mapStore w1) ≠ None) as Hmap' by (by rewrite Hmap1).
    destruct (setBatchPointsByImg_effect o' w1 Hmap')
      as (_ & _ & _ & _ & Hsame & Hprims' & _).
    cbv zeta in *. split; [by apply Hsame|].
    rewrite Hprims', Hprims, !length_app. cbn [length]. lia.
Qed.

(** X16.  [setDronePointByGlb] adds its entity under the caller's id.
    With a trail module whose [setDroneTrail] returns, it throws exactly
    when there is a map instance, the registry does not hold the id, and the
    viewer's collection holds an entity with the id (left there, say, after
    [removeGraphicMap]); the world is then as before the call.  When the
    collection does not hold the id, the call returns a new wrapper object,
    not the entity, and the wrapper is what the registry holds under the id,
    whatever [setDroneTrail] has done to the world. *)
Theorem drone_point_throws (o : DroneOptions) (w : World) :
  ((setDronePointByGlb setDroneTrail o w).1 = thrown
   ↔ getMap (mapStore w) ≠ None
     ∧ hasGraphicMap (mapStore w) (dr_id o) = false
     ∧ named (dr_id o) ∈ entityId <$> entities (runtime w))
  ∧ ((setDronePointByGlb setDroneTrail o w).1 = thrown →
     (setDronePointByGlb setDroneTrail o w).2 = w)
  ∧ (getMap (mapStore w) ≠ None →
     hasGraphicMap (mapStore w) (dr_id o) = false →
     named (dr_id o) ∉ entityId <$> entities (runtime w) →
     let w' := (setDronePointByGlb setDroneTrail o w).2 in
     (setDronePointByGlb setDroneTrail o w).1
       = returned (ref (S (nextHandle (runtime w))))
     ∧ getGraphicMap (mapStore w') (dr_id o) = ref (S (nextHandle (runtime w)))).
Proof.
  unfold setDronePointByGlb, addNamedEntity.
  destruct (getMap (mapStore w)) as [m|] eqn:Hm.
  2: { split; [split; [done|by intros [? _]]|]. split; [done|]. by intros ?. }
  destruct (hasGraphicMap (mapStore w) (dr_id o)) eqn:Hhas.
  { split; [split; [done|by intros (_ & ? & _)]|]. split; [done|]. by intros _ ?. }
  destruct (decide (named (dr_id o) ∈ entityId <$> entities (runtime w))) as [Hin|Hout].
  - rewrite bool_decide_true by done. simpl.
    split; [split; [done|done]|]. split; [done|]. by intros _ _ ?.
  - rewrite bool_decide_false by done. simpl.
    split; [split; [done|by intros (_ & _ & ?)]|]. split; [done|].
    intros _ _ _. split; [done|].
    unfold getGraphicMap. simpl. by rewrite lookup_insert_eq.
Qed.

End Points.

#[local] Existing Instance Reference.engine.
#[local] Existing Instance Reference.objects.

Lemma entity_points_are_created_once_witness :
  (setPointEntityByImg Reference.samplePoint Reference.loadedWorld).1 = ref 0%nat.
Proof.
  pose proof (entity_points_are_created_once Reference.loadedWorld) as Hpoints.
  cbv zeta in Hpoints.
  destruct Hpoints as [Hpoint _]; [discriminate|].
  destruct (Hpoint Reference.samplePoint) as [Hreturned _]; [reflexivity|].
  exact Hreturned.
Defined.

Lemma primitive_point_round_trip_witness :
  mapStore
    (destroyPoint Reference.samplePoint 0%nat 1%nat
       (setPointPrimitiveByImg Reference.samplePoint Reference.loadedWorld).2)
  = mapStore Reference.loadedWorld.
Proof.
  pose proof (primitive_point_round_trip Reference.samplePoint Reference.loadedWorld)
    as Htrip.
  cbv zeta in Htrip.
  destruct Htrip as (_ & _ & _ & _ & _ & _ & _ & _ & Hstore & _).
  - discriminate.
  - reflexivity.
  - intros c Hc. change (c ∈ @nil handle) in Hc. by apply elem_of_nil in Hc.
  - exact Hstore.
Defined.

Lemma batch_points_fill_the_registry_witness :
  entities (runtime (setBatchPointsByImg Reference.sampleBatch Reference.loadedWorld).2)
  = entities (runtime Reference.loadedWorld).
Proof.
  pose proof (batch_points_fill_the_registry Reference.sampleBatch
                Reference.loadedWorld) as Hbatch.
  cbv zeta in Hbatch.
  destruct Hbatch as (_ & _ & _ & _ & Hentities & _); [discriminate|].
  exact Hentities.
Defined.

Lemma drone_point_throws_witness :
  (setDronePointByGlb Reference.noTrail Reference.sampleDrone
     Reference.worldWithDroneEntity).1
  = thrown.
Proof.
  apply (proj1 (drone_point_throws (H := Reference.engine)
                  (H0 := Reference.objects) Reference.noTrail
                  Reference.sampleDrone Reference.worldWithDroneEntity)).
  split; [discriminate|]. split; [reflexivity|].
  change (named "d1" ∈ [named "d1"]). by apply list_elem_of_singleton.
Defined.

End SetPointSpec.

(** ** The wave helpers *)
Module GeometrySpec.
Import Cesium MapStore App Geometry MapStoreSpec HelpersSpec.

Section Waves.
Context `{Objects}.

(** What the two creating helpers do with an id under which the registry
    holds an object. *)
Lemma registered_wave_is_refused (w : World) id :
  getMap (mapStore w) ≠ None →
  truthy (getGraphicMap (mapStore w) id) = true →
  (∀ o, cone_id o = id →
     (conicalWave o w).1 = null ∧ sameButConsole w (conicalWave o w).2)
  ∧ (∀ o, pyr_id o = id →
     (rectangularPyramidWave o w).1 = null
     ∧ sameButConsole w (rectangularPyramidWave o w).2).
Proof.
  intros Hmap Hhas. destruct (getMap (mapStore w)) as [m|] eqn:Hm; [|done].
  split; intros o <-; unfold conicalWave, rectangularPyramidWave;
    rewrite Hm, Hhas; done.
Qed.

(** X17.  With a map instance, [conicalWave] and [rectangularPyramidWave]
    called with an id under which the registry holds no object build one
    primitive from the options, register it under the id, add it to the
    scene and return it; the viewer's entities and the other registry
    entries are as before.  A later call of either helper with that id
    returns [null], not the primitive, and changes the console only. *)
Theorem waves_are_created_once (w : World) :
  getMap (mapStore w) ≠ None →
  let h := nextHandle (runtime w) in
  (∀ o, truthy (getGraphicMap (mapStore w) (cone_id o)) = false →
     let w1 := (conicalWave o w).2 in
     (conicalWave o w).1 = ref h
     ∧ primitives (runtime w1) = primitives (runtime w) ++ [h]
     ∧ heap (runtime w1) = <[h := build (ConeWave o)]> (heap (runtime w))
     ∧ entities (runtime w1) = entities (runtime w)
     ∧ graphicMap (mapStore w1) = <[cone_id o := ref h]> (graphicMap (mapStore w))
     ∧ (∀ o', cone_id o' = cone_id o →
          (conicalWave o' w1).1 = null ∧ sameButConsole w1 (conicalWave o' w1).2)
     ∧ (∀ p, pyr_id p = cone_id o →
          (rectangularPyramidWave p w1).1 = null
          ∧ sameButConsole w1 (rectangularPyramidWave p w1).2))
  ∧ (∀ o, truthy (getGraphicMap (mapStore w) (pyr_id o)) = false →
     let w1 := (rectangularPyramidWave o w).2 in
     (rectangularPyramidWave o w).1 = ref h
     ∧ primitives (runtime w1) = primitives (runtime w) ++ [h]
     ∧ heap (runtime w1) = <[h := build (PyramidWave o)]> (heap (runtime w))
     ∧ entities (runtime w1) = entities (runtime w)
     ∧ graphicMap (mapStore w1) = <[pyr_id o := ref h]> (graphicMap (mapStore w))
     ∧ (∀ o', pyr_id o' = pyr_id o →
          (rectangularPyramidWave o' w1).1 = null
          ∧ sameButConsole w1 (rectangularPyramidWave o' w1).2)
     ∧ (∀ c, cone_id c = pyr_id o →
          (conicalWave c w1).1 = null ∧ sameButConsole w1 (conicalWave c w1).2)).
Proof.
  intros Hmap. cbv zeta. destruct (getMap (mapStore w)) as [m|] eqn:Hm; [|done].
  split; intros o Hnew.
  - assert (conicalWave o w
            = (ref (nextHandle (runtime w)),
               withRuntime
                 (addPrimitive (nextHandle (runtime w))
                    (allocate (build (ConeWave o)) (runtime w)).2)
                 (register (cone_id o) (ref (nextHandle (runtime w))) w))) as ->.
    { unfold conicalWave. by rewrite Hm, Hnew. }
    simpl. do 5 (split; [done|]).
    match goal with
    | |- context [withRuntime ?r (register ?id ?g ?w0)] =>
        destruct (registered_wave_is_refused (withRuntime r (register id g w0)) id)
          as (Hc & Hp)
    end; [unfold getMap in *; simpl; by rewrite Hm
         |unfold getGraphicMap; simpl; by rewrite lookup_insert_eq|].
    split; [exact Hc|exact Hp].
  - assert (rectangularPyramidWave o w
            = (ref (nextHandle (runtime w)),
               withRuntime
                 (addPrimitive (nextHandle (runtime w))
                    (allocate (build (PyramidWave o)) (runtime w)).2)
                 (register (pyr_id o) (ref (nextHandle (runtime w))) w))) as ->.
    { unfold rectangularPyramidWave. by rewrite Hm, Hnew. }
    simpl. do 5 (split; [done|]).
    match goal with
    | |- context [withRuntime ?r (register ?id ?g ?w0)] =>
        destruct (registered_wave_is_refused (withRuntime r (register id g w0)) id)
          as (Hc & Hp)
    end; [unfold getMap in *; simpl; by rewrite Hm
         |unfold getGraphicMap; simpl; by rewrite lookup_insert_eq|].
    split; [exact Hp|exact Hc].
Qed.

Lemma log_failedWith m (w : World) : failedWith w (log LogError m w).
Proof. split; [apply log_sameButConsole|by exists m]. Qed.

Ltac failed_update :=
  repeat match goal with
  | |- (_, log LogError _ _).1 = false → _ => intros _; apply log_failedWith
  | |- ((true, _).1 = false) → _ => by intros ?
  | |- context [match ?x with _ => _ end] => destruct x eqn:?
  | |- context [if ?b then _ else _] => destruct b eqn:?
  end.

(** X18.  An update of a cone or a pyramid that returns [false] has written
    one error message to the console and changed nothing else: the scene,
    the registry and the objects are as before, also when the update failed
    inside its [try] block. *)
Theorem failed_updates_change_the_console_only (w : World) :
  (∀ u, (updateConeLengthOrPosition u w).1 = false →
        failedWith w (updateConeLengthOrPosition u w).2)
  ∧ (∀ u, (updateConePose u w).1 = false →
        failedWith w (updateConePose u w).2)
  ∧ (∀ u, (updateRectangularPyramidLengthOrPosition u w).1 = false →
        failedWith w (updateRectangularPyramidLengthOrPosition u w).2)
  ∧ (∀ u, (updateRectangularPyramidWavePose u w).1 = false →
        failedWith w (updateRectangularPyramidWavePose u w).2).
Proof.
  split; [|split; [|split]]; intros u;
    unfold updateConeLengthOrPosition, updateConePose,
      updateRectangularPyramidLengthOrPosition, updateRectangularPyramidWavePose;
    failed_update.
Qed.

Lemma registered_Some (w : World) id p old :
  registered w id = Some (p, old) ↔
  graphicMap (mapStore w) !! id = Some (ref p) ∧ heap (runtime w) !! p = Some old.
Proof.
  unfold registered, getGraphicMap.
  destruct (graphicMap (mapStore w) !! id) as [[| |h]|] eqn:Hid; simpl;
    try (split; [done|by intros [? _]]).
  destruct (heap (runtime w) !! h) as [o|] eqn:Hh; simpl.
  - split; [by intros [= <- <-]|]. intros [[= ->] Hp]. congruence.
  - split; [done|]. intros [[= ->] Hp]. congruence.
Qed.

Lemma registered_truthy (w : World) id p old :
  registered w id = Some (p, old) → truthy (getGraphicMap (mapStore w) id) = true.
Proof.
  intros [Hid _]%registered_Some. unfold getGraphicMap. by rewrite Hid.
Qed.

Lemma size_or_positions {A B C : Type} (size : option A) (positions : option B)
    (x y : C) :
  size ≠ None ∨ positions ≠ None →
  match size, positions with None, None => x | _, _ => y end = y.
Proof. destruct size, positions; try done. by intros [?|?]. Qed.

(** X19.  [updateConeLengthOrPosition] and
    [updateRectangularPyramidLengthOrPosition] return [true] exactly when
    there is a map instance, a size or a position is given, the registry
    holds under the id an object of the heap, and the engine builds the
    resized primitive from it.  Then the new primitive, a new object, stands
    for the old one: the old one is taken off the scene, the new one is
    added at the end and registered under the id; the entities are as
    before. *)
Theorem resize_replaces_the_primitive (w : World) :
  (∀ u,
     (updateConeLengthOrPosition u w).1 = true ↔
     getMap (mapStore w) ≠ None
     ∧ (su_size u ≠ None ∨ su_positions u ≠ None)
     ∧ ∃ old oldObject new,
         registered w (su_id u) = Some (old, oldObject)
         ∧ resizeCone oldObject (su_size u) (su_positions u) = Some new
         ∧ replacedIn (su_id u) old new w (updateConeLengthOrPosition u w).2)
  ∧ (∀ u,
     (updateRectangularPyramidLengthOrPosition u w).1 = true ↔
     getMap (mapStore w) ≠ None
     ∧ (su_size u ≠ None ∨ su_positions u ≠ None)
     ∧ ∃ old oldObject new,
         registered w (su_id u) = Some (old, oldObject)
         ∧ resizePyramid oldObject (su_size u) (su_positions u) = Some new
         ∧ replacedIn (su_id u) old new w
             (updateRectangularPyramidLengthOrPosition u w).2).
Proof.
  split; intros u;
    unfold updateConeLengthOrPosition, updateRectangularPyramidLengthOrPosition.
  all: destruct (getMap (mapStore w)) as [m|] eqn:Hm;
    [|split; [done|by intros [? _]]].
  all: destruct (decide (su_size u = None ∧ su_positions u = None))
    as [[Hs Hp]|Hsome];
    [rewrite Hs, Hp; simpl; split; [done|by intros (_ & [?|?] & _)]|].
  all: assert (su_size u ≠ None ∨ su_positions u ≠ None) as Hyes
    by (destruct (su_size u), (su_positions u); [by left|by left|by right|tauto]).
  all: rewrite (size_or_positions _ _ _ _ Hyes).
  all: destruct (registered w (su_id u)) as [[old oldObject]|] eqn:Hreg.
  all: try (destruct (truthy _); simpl; (split; [done|]);
            intros (_ & _ & ? & ? & ? & ? & _); congruence).
  all: rewrite (registered_truthy _ _ _ _ Hreg); simpl.
  all: match goal with
       | |- context [resizeCone ?o ?a ?b] =>
           destruct (resizeCone o a b) as [new|] eqn:Hnew
       | |- context [resizePyramid ?o ?a ?b] =>
           destruct (resizePyramid o a b) as [new|] eqn:Hnew
       end; simpl.
  all: try (split; [done|]; intros (_ & _ & ? & ? & ? & [= <- <-] & ? & _);
            congruence).
  all: split; [intros _|done]; split; [done|]; split; [exact Hyes|];
       exists old, oldObject, new; by repeat split.
Qed.

Lemma register_again (w : World) id p :
  graphicMap (mapStore w) !! id = Some (ref p) →
  setGraphicMap id (ref p) (mapStore w) = mapStore w.
Proof.
  intros Hid. unfold setGraphicMap, withGraphicMap. rewrite insert_id by done.
  by destruct (mapStore w).
Qed.

(** X20.  [updateConePose] and [updateRectangularPyramidWavePose] return
    [true] exactly when there is a map instance, the registry holds under
    the id an object of the heap, and the engine computes its new pose.
    Then the object behind the registered primitive has changed in place:
    no object is created, the scene, the entities and the whole store are as
    before (registering the cone again changes nothing). *)
Theorem pose_updates_are_in_place (w : World) :
  (∀ u,
     (updateConePose u w).1 = true ↔
     getMap (mapStore w) ≠ None
     ∧ ∃ p old new,
         registered w (pu_id u) = Some (p, old)
         ∧ poseCone old (pu_heading u) (pu_pitch u) = Some new
         ∧ updatedInPlace (pu_id u) p new w (updateConePose u w).2)
  ∧ (∀ u,
     (updateRectangularPyramidWavePose u w).1 = true ↔
     getMap (mapStore w) ≠ None
     ∧ ∃ p old new,
         registered w (pu_id u) = Some (p, old)
         ∧ posePyramid old (pu_heading u) (pu_pitch u) = Some new
         ∧ updatedInPlace (pu_id u) p new w
             (updateRectangularPyramidWavePose u w).2).
Proof.
  split; intros u; unfold updateConePose, updateRectangularPyramidWavePose.
  all: destruct (getMap (mapStore w)) as [m|] eqn:Hm;
    [|split; [done|by intros [? _]]].
  all: destruct (registered w (pu_id u)) as [[p old]|] eqn:Hreg.
  all: try (destruct (truthy _); simpl; (split; [done|]);
            intros (_ & ? & ? & ? & ? & _); congruence).
  all: rewrite (registered_truthy _ _ _ _ Hreg); simpl.
  - destruct (poseCone old _ _) as [new|] eqn:Hnew; simpl.
    + split; [intros _|done]. split; [done|].
      exists p, old, new. split; [done|]. split; [done|].
      apply registered_Some in Hreg as [Hid _].
      split; [done|]. split; [|by repeat split].
      by apply (register_again w).
    + split; [done|]. intros (_ & ? & ? & ? & [= <- <-] & ? & _). congruence.
  - destruct (posePyramid old _ _) as [new|] eqn:Hnew; simpl.
    + split; [intros _|done]. split; [done|].
      exists p, old, new. by repeat split.
    + split; [done|]. intros (_ & ? & ? & ? & [= <- <-] & ? & _). congruence.
Qed.

End Waves.

#[local] Existing Instance Reference.engine.
#[local] Existing Instance Reference.objects.

Lemma waves_are_created_once_witness :
  (conicalWave Reference.sampleCone Reference.loadedWorld).1 = ref 0%nat.
Proof.
  pose proof (waves_are_created_once Reference.loadedWorld) as Hwaves.
  cbv zeta in Hwaves.
  destruct Hwaves as [Hcone _]; [discriminate|].
  destruct (Hcone Reference.sampleCone) as [Hreturned _]; [reflexivity|].
  exact Hreturned.
Defined.

Lemma failed_updates_change_the_console_only_witness :
  failedWith Reference.worldWithPoint
    (updateConePose Reference.samplePose Reference.worldWithPoint).2.
Proof.
  apply (proj1 (proj2 (failed_updates_change_the_console_only
                         Reference.worldWithPoint))).
  reflexivity.
Defined.

Lemma resize_replaces_the_primitive_witness :
  getMap (mapStore Reference.worldWithCone) ≠ None
  ∧ (su_size Reference.sampleResize ≠ None
     ∨ su_positions Reference.sampleResize ≠ None)
  ∧ ∃ old oldObject new,
      registered Reference.worldWithCone (su_id Reference.sampleResize)
      = Some (old, oldObject)
      ∧ resizeCone oldObject (su_size Reference.sampleResize)
          (su_positions Reference.sampleResize) = Some new
      ∧ replacedIn (su_id Reference.sampleResize) old new Reference.worldWithCone
          (updateConeLengthOrPosition Reference.sampleResize
             Reference.worldWithCone).2.
Proof.
  apply (proj1 (proj1 (resize_replaces_the_primitive Reference.worldWithCone)
                  Reference.sampleResize)).
  reflexivity.
Defined.

Lemma pose_updates_are_in_place_witness :
  getMap (mapStore Reference.worldWithCone) ≠ None
  ∧ ∃ p old new,
      registered Reference.worldWithCone (pu_id Reference.sampleConePose)
      = Some (p, old)
      ∧ poseCone old (pu_heading Reference.sampleConePose)
          (pu_pitch Reference.sampleConePose) = Some new
      ∧ updatedInPlace (pu_id Reference.sampleConePose) p new
          Reference.worldWithCone
          (updateConePose Reference.sampleConePose Reference.worldWithCone).2.
Proof.
  apply (proj1 (proj1 (pose_updates_are_in_place Reference.worldWithCone)
                  Reference.sampleConePose)).
  reflexivity.
Defined.

End GeometrySpec.
